(** * GitQlient: the repository loader (src/git/GitRepoLoader.cpp)

    A shallow embedding of [GitRepoLoader]: the single-flight guard of
    [loadRepository], the root resolution, the ingestion loop of
    [processRevision], the synthesis of the pending-changes revision, the
    enumeration of untracked files and the classification of references
    with the branch distances.

    Conventions.
    - A [QString] and a [QByteArray] are values of [string]; one [ascii]
      stands for one code unit (one byte of a [QByteArray]).
    - [int] counters are values of [Z]: a buffer holds fewer than 2^31 bytes,
      so the counter of the ingestion loop stays in range.  [uint] fields are
      values of [N] below 2^32.
    - The loader is a state transformer that also yields the ordered list of
      the actions it performs on its collaborators (commands, cache calls,
      signals, writes to the lock): see [M].
    - The [QLog_*] diagnostics change nothing in the loader, the cache or the
      signals and are left out. *)

From Stdlib Require Import String Ascii List ZArith NArith Lia Bool Decimal DecimalString DecimalN.
Import ListNotations.

Local Open Scope string_scope.
Local Open Scope list_scope.

(** ** The parts of the Qt string API the loader uses *)

Module QString.

Definition isEmpty (s : string) : bool :=
  match s with EmptyString => true | String _ _ => false end.

(** [QString::left(n)]: the [n] leftmost characters, the whole string when
    it is shorter. *)
Fixpoint left (n : nat) (s : string) : string :=
  match n, s with
  | S k, String c r => String c (left k r)
  | _, _ => EmptyString
  end.

(** [QString::mid(pos)]: everything from position [pos] on, empty when
    [pos] is past the end. *)
Fixpoint mid (pos : nat) (s : string) : string :=
  match pos, s with
  | S k, String _ r => mid k r
  | _, _ => s
  end.

(** [QString::mid(pos, n)]: at most [n] characters from position [pos]. *)
Definition midn (pos n : nat) (s : string) : string := left n (mid pos s).

Definition startsWith (p s : string) : bool := String.prefix p s.

Definition endsWith (p s : string) : bool :=
  (String.length p <=? String.length s)%nat
  && String.eqb (mid (String.length s - String.length p) s) p.

(** [QString::contains(str)]. *)
Fixpoint contains (p s : string) : bool :=
  String.prefix p s
  || match s with EmptyString => false | String _ r => contains p r end.

(** [QString::remove(str)]: every occurrence of [p] is taken out, scanning
    from the left and resuming right after each occurrence.  [skip] counts
    the characters of the current occurrence still to drop. *)
Fixpoint remove_from (p : string) (skip : nat) (s : string) : string :=
  match s with
  | EmptyString => EmptyString
  | String c r =>
      match skip with
      | S k => remove_from p k r
      | O => if String.prefix p s
             then remove_from p (String.length p - 1) r
             else String c (remove_from p 0 r)
      end
  end.

Definition remove (p s : string) : string :=
  if isEmpty p then s else remove_from p 0 s.

(** [QString::replace(QChar, "")]: every occurrence of the character goes. *)
Fixpoint removeChar (c : ascii) (s : string) : string :=
  match s with
  | EmptyString => EmptyString
  | String d r => if Ascii.eqb d c then removeChar c r
                  else String d (removeChar c r)
  end.

(** [split(sep)] with [KeepEmptyParts] (also [QByteArray::split]): one
    more part than there are separators. *)
Fixpoint split (sep : ascii) (s : string) : list string :=
  match s with
  | EmptyString => [EmptyString]
  | String c r =>
      if Ascii.eqb c sep then EmptyString :: split sep r
      else match split sep r with
           | h :: t => String c h :: t
           | [] => [String c EmptyString]
           end
  end.

(** [split(sep, QString::SkipEmptyParts)]. *)
Definition splitSkipEmpty (sep : ascii) (s : string) : list string :=
  filter (fun part => negb (isEmpty part)) (split sep s).

(** [QStringList::first()] and [last()], on the never-empty result of
    [split]. *)
Definition first (l : list string) : string := hd EmptyString l.
Definition last (l : list string) : string := List.last l EmptyString.

(** [QChar::isSpace] on the code units below 256: tab, line feed, vertical
    tab, form feed, carriage return, space, next line (0x85) and no-break
    space (0xA0). *)
Definition isSpace (c : ascii) : bool :=
  let n := nat_of_ascii c in
  ((9 <=? n) && (n <=? 13))%nat || (n =? 32)%nat
  || (n =? 133)%nat || (n =? 160)%nat.

Fixpoint trimLeft (s : string) : string :=
  match s with
  | String c r => if isSpace c then trimLeft r else s
  | EmptyString => EmptyString
  end.

(** Drops the trailing white space: a character stays when it is not a
    space or when something that stays follows it. *)
Fixpoint trimRight (s : string) : string :=
  match s with
  | EmptyString => EmptyString
  | String c r =>
      match trimRight r with
      | EmptyString => if isSpace c then EmptyString else String c EmptyString
      | r' => String c r'
      end
  end.

(** [QString::trimmed()]. *)
Definition trimmed (s : string) : string := trimRight (trimLeft s).

Definition UINT_MAX : N := 4294967295.

(** [QString::toUInt()] in base 10: white space around the number is
    ignored, a leading plus sign is accepted, and the result is 0 when the
    text is not a number or does not fit an [unsigned int]. *)
Definition toUInt (s : string) : N :=
  let t := trimmed s in
  let digits := match t with
                | String c r => if Ascii.eqb c "+"%char then r else t
                | EmptyString => t
                end in
  match NilZero.uint_of_string digits with
  | Some d => if (N.of_uint d <=? UINT_MAX)%N then N.of_uint d else 0%N
  | None => 0%N
  end.

(** [QString::number(n)] for an unsigned value. *)
Definition number (n : N) : string := NilZero.string_of_uint (N.to_uint n).

End QString.

(** ** Data of the loader and of its collaborators *)

(** [GitExecResult]: what a command run through [GitBase] returns. *)
Record GitExecResult := mkResult { success : bool; output : string }.

(** The state of [GitBase] the loader reads and writes. *)
Record GitBase := mkGitBase { workingDir : string; currentBranch : string }.

(** [References::Type]. *)
Inductive ReferenceType := Tag | LocalBranch | RemoteBranches.

(** [RevisionsCache::LocalBranchDistances].
    Modelled from the spec: the declaration (RevisionsCache.h) is not among
    the sources; the four counts are unsigned and start at 0. *)
Record LocalBranchDistances := mkDistances {
  aheadMaster : N;
  behindMaster : N;
  aheadOrigin : N;
  behindOrigin : N
}.

Definition defaultDistances : LocalBranchDistances := mkDistances 0 0 0 0.

Definition GIT_LOG_FORMAT : string :=
  "%m%HX%P%n%cn<%ce>%n%an<%ae>%n%at%n%s%n%b ".

(** The byte that separates two commits in the output of [git log -z]. *)
Definition NUL : ascii := "000"%char.
Definition LF : ascii := "010"%char.
Definition TAB : ascii := "009"%char.

Section Loader.

(** [CommitInfo] (CommitInfo.h) is not among the sources: the record type,
    its constructor from one token and [isValid] are parameters. *)
Variable CommitInfo : Type.

(** What the loader asks of code outside GitRepoLoader.cpp.  Each query
    sees the [GitBase] it is made on (its working directory and branch). *)
Record Collaborators := mkCollaborators {
  (* CommitInfo::CommitInfo(const QByteArray &) and CommitInfo::isValid *)
  parseCommit : string -> CommitInfo;
  isValid : CommitInfo -> bool;
  (* GitBase::run *)
  run : GitBase -> string -> GitExecResult;
  (* the branch GitBase::updateCurrentBranch stores *)
  resolveCurrentBranch : GitBase -> string;
  (* GitBase::getLastCommit *)
  getLastCommit : GitBase -> GitExecResult;
  (* GitBranches::getDistanceBetweenBranches(toMaster, name) *)
  getDistanceBetweenBranches : GitBase -> bool -> string -> GitExecResult;
  (* QDir(path).absolutePath() *)
  absolutePath : string -> string;
  (* QFile::exists *)
  fileExists : string -> bool;
  (* the buffer GitRequestorProcess(workingDir).run(cmd) hands to
     procDataReady *)
  logOutput : string -> string -> string
}.

(** The calls the loader makes into [RevisionsCache]. *)
Inductive CacheCall :=
| Clear
| Configure (total : Z)
| SetUntrackedFilesList (files : list string)
| UpdateWipCommit (parentSha diffIndex diffIndexCached : string)
| InsertCommitInfo (revision : CommitInfo) (sequenceIndex : Z)
| InsertReference (sha : string) (type : ReferenceType) (name : string)
| InsertLocalBranchDistances (name : string) (d : LocalBranchDistances).

(** Modelled from the spec: RevisionsCache.cpp is not among the sources.
    The cache holds the commit records under their sequence index, the
    pending-changes record (which occupies position 0), the references,
    the distances of the local branches and the untracked files; [Clear]
    empties all of it. *)
Record RevisionsCache := mkCache {
  reserved : Z;
  untrackedFiles : list string;
  wipCommit : option (string * string * string);
  commits : list (Z * CommitInfo);
  references : list (string * ReferenceType * string);
  distances : list (string * LocalBranchDistances)
}.

Definition emptyCache : RevisionsCache := mkCache 0 [] None [] [] [].

Definition applyCall (call : CacheCall) (c : RevisionsCache) : RevisionsCache :=
  match call with
  | Clear => emptyCache
  | Configure total =>
      mkCache total (untrackedFiles c) (wipCommit c) (commits c)
              (references c) (distances c)
  | SetUntrackedFilesList files =>
      mkCache (reserved c) files (wipCommit c) (commits c)
              (references c) (distances c)
  | UpdateWipCommit parentSha diffIndex diffIndexCached =>
      mkCache (reserved c) (untrackedFiles c)
              (Some (parentSha, diffIndex, diffIndexCached)) (commits c)
              (references c) (distances c)
  | InsertCommitInfo revision sequenceIndex =>
      mkCache (reserved c) (untrackedFiles c) (wipCommit c)
              (commits c ++ [(sequenceIndex, revision)])
              (references c) (distances c)
  | InsertReference sha type name =>
      mkCache (reserved c) (untrackedFiles c) (wipCommit c) (commits c)
              (references c ++ [(sha, type, name)]) (distances c)
  | InsertLocalBranchDistances name d =>
      mkCache (reserved c) (untrackedFiles c) (wipCommit c) (commits c)
              (references c) (distances c ++ [(name, d)])
  end.

(** The fields of [GitRepoLoader]. *)
Record Loader := mkLoader {
  mLocked : bool;
  mShowAll : bool;
  mGitBase : GitBase;
  mRevCache : RevisionsCache
}.

(** What the loader does to the world around it, in the order it does it. *)
Inductive Event :=
| EvRun (workingDir cmd : string)
| EvUpdateCurrentBranch
| EvLastCommit
| EvDistance (toMaster : bool) (name : string)
| EvRequest (workingDir cmd : string)
| EvSetLocked (b : bool)
| EvCache (call : CacheCall)
| EvLoadingStarted (total : Z)
| EvLoadingStep (count : Z)
| EvLoadingFinished.

(** A method of the loader: from the loader before the call to the value
    returned, the loader after the call and the actions performed. *)
Definition M (A : Type) : Type := Loader -> A * Loader * list Event.

Definition ret {A} (a : A) : M A := fun l => (a, l, []).

Definition bind {A B} (m : M A) (f : A -> M B) : M B :=
  fun l =>
    let '(a, l1, t1) := m l in
    let '(b, l2, t2) := f a l1 in
    (b, l2, t1 ++ t2).

Definition emit (e : Event) : M unit := fun l => (tt, l, [e]).

Definition gitBase : M GitBase := fun l => (mGitBase l, l, []).

Definition setLocked (b : bool) : M unit :=
  fun l => (tt, mkLoader b (mShowAll l) (mGitBase l) (mRevCache l),
            [EvSetLocked b]).

Definition setGitBase (gb : GitBase) : M unit :=
  fun l => (tt, mkLoader (mLocked l) (mShowAll l) gb (mRevCache l), []).

Definition cache (call : CacheCall) : M unit :=
  fun l => (tt, mkLoader (mLocked l) (mShowAll l) (mGitBase l)
                         (applyCall call (mRevCache l)),
            [EvCache call]).

Definition value {A} (r : A * Loader * list Event) : A := fst (fst r).
Definition after {A} (r : A * Loader * list Event) : Loader := snd (fst r).
Definition actions {A} (r : A * Loader * list Event) : list Event := snd r.

End Loader.

Arguments ret {CommitInfo A} a.
Arguments bind {CommitInfo A B} m f.
Arguments emit {CommitInfo} e.
Arguments gitBase {CommitInfo}.
Arguments setLocked {CommitInfo} b.
Arguments setGitBase {CommitInfo} gb.
Arguments value {CommitInfo A} r.
Arguments after {CommitInfo A} r.
Arguments actions {CommitInfo A} r.
Arguments cache {CommitInfo} call.
Arguments applyCall {CommitInfo} call c.
Arguments emptyCache {CommitInfo}.
Arguments mkLoader {CommitInfo} mLocked mShowAll mGitBase mRevCache.
Arguments mLocked {CommitInfo} l.
Arguments mShowAll {CommitInfo} l.
Arguments mGitBase {CommitInfo} l.
Arguments mRevCache {CommitInfo} l.
Arguments mkCache {CommitInfo}.
Arguments reserved {CommitInfo} r.
Arguments untrackedFiles {CommitInfo} r.
Arguments wipCommit {CommitInfo} r.
Arguments commits {CommitInfo} r.
Arguments references {CommitInfo} r.
Arguments distances {CommitInfo} r.
Arguments mkCollaborators {CommitInfo}.
Arguments parseCommit {CommitInfo} c.
Arguments isValid {CommitInfo} c.
Arguments run {CommitInfo} c.
Arguments resolveCurrentBranch {CommitInfo} c.
Arguments getLastCommit {CommitInfo} c.
Arguments getDistanceBetweenBranches {CommitInfo} c.
Arguments absolutePath {CommitInfo} c.
Arguments fileExists {CommitInfo} c.
Arguments logOutput {CommitInfo} c.
Arguments EvCache {CommitInfo} call.
Arguments InsertCommitInfo {CommitInfo} revision sequenceIndex.
Arguments Clear {CommitInfo}.
Arguments Configure {CommitInfo} total.
Arguments SetUntrackedFilesList {CommitInfo} files.
Arguments UpdateWipCommit {CommitInfo} parentSha diffIndex diffIndexCached.
Arguments InsertReference {CommitInfo} sha type name.
Arguments InsertLocalBranchDistances {CommitInfo} name d.
Arguments EvRun {CommitInfo} workingDir cmd.
Arguments EvUpdateCurrentBranch {CommitInfo}.
Arguments EvLastCommit {CommitInfo}.
Arguments EvDistance {CommitInfo} toMaster name.
Arguments EvRequest {CommitInfo} workingDir cmd.
Arguments EvSetLocked {CommitInfo} b.
Arguments EvLoadingStarted {CommitInfo} total.
Arguments EvLoadingStep {CommitInfo} count.
Arguments EvLoadingFinished {CommitInfo}.

Declare Scope loader_scope.
Delimit Scope loader_scope with loader.
Notation "x <- m ;; k" := (bind m (fun x => k))
  (at level 61, m at next level, right associativity) : loader_scope.
Notation "m ;;; k" := (bind m (fun _ => k))
  (at level 61, right associativity) : loader_scope.

(** ** The loader *)

Section Methods.

Context {CommitInfo : Type}.
Variable env : Collaborators CommitInfo.

Local Open Scope loader_scope.

(** [mGitBase->run(cmd)]. *)
Definition runGit (cmd : string) : M CommitInfo GitExecResult :=
  fun l => (run env (mGitBase l) cmd, l,
            [EvRun (workingDir (mGitBase l)) cmd]).

(** [mGitBase->updateCurrentBranch()].
    Modelled from the spec: GitBase.cpp is not among the sources; the call
    refreshes the current branch of [GitBase] and nothing else. *)
Definition updateCurrentBranch : M CommitInfo unit :=
  fun l =>
    let gb := mGitBase l in
    (tt,
     mkLoader (mLocked l) (mShowAll l)
              (mkGitBase (workingDir gb) (resolveCurrentBranch env gb))
              (mRevCache l),
     [EvUpdateCurrentBranch]).

(** [mGitBase->getLastCommit()]. *)
Definition lastCommit : M CommitInfo GitExecResult :=
  fun l => (getLastCommit env (mGitBase l), l, [EvLastCommit]).

(** [GitBranches(mGitBase).getDistanceBetweenBranches(toMaster, name)]. *)
Definition distanceBetweenBranches (toMaster : bool) (name : string)
  : M CommitInfo GitExecResult :=
  fun l => (getDistanceBetweenBranches env (mGitBase l) toMaster name, l,
            [EvDistance toMaster name]).

(** [GitRepoLoader::configureRepoDirectory]. *)
Definition configureRepoDirectory : M CommitInfo bool :=
  r <- runGit "git rev-parse --show-cdup" ;;
  if success r then
    gb <- gitBase ;;
    let d := (workingDir gb ++ "/" ++ QString.trimmed (output r))%string in
    setGitBase (mkGitBase (absolutePath env d) (currentBranch gb)) ;;;
    ret true
  else ret false.

(** The command line [requestRevisions] builds. *)
Definition baseCmd (l : Loader CommitInfo) : string :=
  ("git log --date-order --no-color --log-size --parents --boundary -z --pretty=format:"
   ++ GIT_LOG_FORMAT
   ++ (if mShowAll l then "--all" else currentBranch (mGitBase l)))%string.

(** [GitRepoLoader::requestRevisions]: the log command is handed to a
    [GitRequestorProcess]; its output comes back later, through
    [processRevision]. *)
Definition requestRevisions : M CommitInfo unit :=
  fun l => (tt, l, [EvRequest (workingDir (mGitBase l)) (baseCmd l)]).

(** [GitRepoLoader::loadRepository]. *)
Definition loadRepository : M CommitInfo bool :=
  fun l =>
    if mLocked l then ret false l
    else if QString.isEmpty (workingDir (mGitBase l)) then ret false l
    else
      (cache Clear ;;;
       setLocked true ;;;
       ok <- configureRepoDirectory ;;
       if ok then
         updateCurrentBranch ;;;
         requestRevisions ;;;
         ret true
       else ret false) l.

(** [GitRepoLoader::getUntrackedFiles]. *)
Definition untrackedCmd (exists_ : bool) : string :=
  ("git ls-files --others"
   ++ (if exists_ then " --exclude-from=$.git/info/exclude$" else "")
   ++ " --exclude-per-directory=$.gitignore$")%string.

Definition getUntrackedFiles : M CommitInfo (list string) :=
  gb <- gitBase ;;
  let exFile := ".git/info/exclude" in
  let path := (workingDir gb ++ "/" ++ exFile)%string in
  r <- runGit (untrackedCmd (fileExists env path)) ;;
  ret (QString.splitSkipEmpty LF (output r)).

(** [GitRepoLoader::updateWipRevision]. *)
Definition updateWipRevision : M CommitInfo unit :=
  files <- getUntrackedFiles ;;
  cache (SetUntrackedFilesList files) ;;;
  r <- runGit "git rev-parse --revs-only HEAD" ;;
  if success r then
    let parentSha := QString.trimmed (output r) in
    ret3 <- runGit ("git diff-index " ++ parentSha)%string ;;
    let diffIndex := if success ret3 then output ret3 else "" in
    ret4 <- runGit ("git diff-index --cached " ++ parentSha)%string ;;
    let diffIndexCached := if success ret4 then output ret4 else "" in
    cache (UpdateWipCommit parentSha diffIndex diffIndexCached)
  else ret tt.

(** The distances of one comparison: [behind] and [ahead] stay as they are
    when the output says "fatal". *)
Definition parseDistance (out : string) (dflt : N * N) : N * N :=
  if negb (QString.contains "fatal" out) then
    let values := QString.split TAB (QString.removeChar LF out) in
    (QString.toUInt (QString.first values), QString.toUInt (QString.last values))
  else dflt.

(** The type and the name [loadReferences] gives to a reference, and whether
    it is a local branch; [None] is the [continue] of the loop. *)
Definition classify (reference refName : string)
  : option (ReferenceType * string * bool) :=
  if QString.startsWith "refs/tags/" refName then
    Some (Tag,
          QString.remove "^{}" (QString.midn 10 (String.length reference) refName),
          false)
  else if QString.startsWith "refs/heads/" refName then
    Some (LocalBranch, QString.mid 11 refName, true)
  else if QString.startsWith "refs/remotes/" refName
          && negb (QString.endsWith "HEAD" refName) then
    Some (RemoteBranches, QString.mid 13 refName, false)
  else None.

(** The body of the loop of [loadReferences], for one line of
    [git show-ref -d].  ([prevRefSha] is written and never read.) *)
Definition loadReference (reference : string) : M CommitInfo unit :=
  let revSha := QString.left 40 reference in
  let refName := QString.mid 41 reference in
  if negb (QString.startsWith "refs/tags/" refName)
     || (QString.startsWith "refs/tags/" refName
         && QString.endsWith "^{}" refName)
  then
    match classify reference refName with
    | None => ret tt
    | Some (type, name, localBranches) =>
        cache (InsertReference revSha type name) ;;;
        if localBranches then
          distToMaster <- distanceBetweenBranches true name ;;
          let '(behindM, aheadM) :=
            parseDistance (output distToMaster)
              (behindMaster defaultDistances, aheadMaster defaultDistances) in
          distToOrigin <- distanceBetweenBranches false name ;;
          let '(behindO, aheadO) :=
            parseDistance (output distToOrigin)
              (behindOrigin defaultDistances, aheadOrigin defaultDistances) in
          cache (InsertLocalBranchDistances name
                   (mkDistances aheadM behindM aheadO behindO))
        else ret tt
    end
  else ret tt.

Fixpoint forEach {A} (body : A -> M CommitInfo unit) (items : list A) : M CommitInfo unit :=
  match items with
  | [] => ret tt
  | item :: rest => body item ;;; forEach body rest
  end.

(** [GitRepoLoader::loadReferences]. *)
Definition loadReferences : M CommitInfo unit :=
  ret3 <- runGit "git show-ref -d" ;;
  if success ret3 then
    _r <- lastCommit ;;
    let referencesList := QString.splitSkipEmpty LF (output ret3) in
    forEach loadReference referencesList
  else ret tt.

(** The loop of [processRevision]: it stops at the first token that does not
    give a valid [CommitInfo]. *)
Fixpoint ingest (commitList : list string) (count : Z) : M CommitInfo unit :=
  match commitList with
  | [] => ret tt
  | commitInfo :: rest =>
      let revision := parseCommit env commitInfo in
      if isValid env revision then
        cache (InsertCommitInfo revision count) ;;;
        emit (EvLoadingStep count) ;;;
        ingest rest (count + 1)%Z
      else ret tt
  end.

(** [GitRepoLoader::processRevision]. *)
Definition processRevision (ba : string) : M CommitInfo unit :=
  let commitList := QString.split NUL ba in
  let totalCommits := Z.of_nat (List.length commitList) in
  cache (Configure totalCommits) ;;;
  emit (EvLoadingStarted totalCommits) ;;;
  updateWipRevision ;;;
  ingest commitList 1%Z ;;;
  setLocked false ;;;
  loadReferences ;;;
  emit EvLoadingFinished.

(** One load cycle: [loadRepository] and, when it returned [true], the
    [procDataReady] callback with the output of the requested command. *)
Definition loadCycle : M CommitInfo bool :=
  ok <- loadRepository ;;
  if ok then
    (fun l =>
       processRevision
         (logOutput env (workingDir (mGitBase l)) (baseCmd l)) l) ;;;
    ret true
  else ret false.

End Methods.

(** ** Vocabulary of the properties *)

Section Observations.

Context {CommitInfo : Type}.
Variable env : Collaborators CommitInfo.

(** The tokens before the first one that does not decode. *)
Fixpoint validPrefix (tokens : list string) : list string :=
  match tokens with
  | [] => []
  | t :: rest =>
      if isValid env (parseCommit env t) then t :: validPrefix rest else []
  end.

(** The elements of a list with their positions, counted from [start]. *)
Fixpoint numbered {A} (start : Z) (items : list A) : list (Z * A) :=
  match items with
  | [] => []
  | x :: rest => (start, x) :: numbered (start + 1)%Z rest
  end.

(** The records [processRevision] inserts for a buffer, with their sequence
    indices. *)
Definition ingested (ba : string) : list (Z * CommitInfo) :=
  numbered 1%Z (map (parseCommit env) (validPrefix (QString.split NUL ba))).

(** What a list of actions inserts into the commits of the cache, which step
    events it emits and which totals it announces. *)
Definition insertedOf (e : Event CommitInfo) : list (Z * CommitInfo) :=
  match e with
  | EvCache (InsertCommitInfo revision sequenceIndex) =>
      [(sequenceIndex, revision)]
  | _ => []
  end.

Definition stepOf (e : Event CommitInfo) : list Z :=
  match e with EvLoadingStep count => [count] | _ => [] end.

Definition startedOf (e : Event CommitInfo) : list Z :=
  match e with EvLoadingStarted total => [total] | _ => [] end.

Definition inserted (t : list (Event CommitInfo)) := flat_map insertedOf t.
Definition steps (t : list (Event CommitInfo)) := flat_map stepOf t.
Definition announced (t : list (Event CommitInfo)) := flat_map startedOf t.

(** The actions of the ingestion loop for one inserted record. *)
Definition ingestActions (entry : Z * CommitInfo) : list (Event CommitInfo) :=
  [EvCache (InsertCommitInfo (snd entry) (fst entry)); EvLoadingStep (fst entry)].

(** Actions that belong to the synthesis of the pending-changes record. *)
Definition isWipAction (e : Event CommitInfo) : bool :=
  match e with
  | EvRun _ _ => true
  | EvCache (SetUntrackedFilesList _) => true
  | EvCache (UpdateWipCommit _ _ _) => true
  | _ => false
  end.

(** Actions that belong to the population of the references. *)
Definition isReferenceAction (e : Event CommitInfo) : bool :=
  match e with
  | EvRun _ _ => true
  | EvLastCommit => true
  | EvDistance _ _ => true
  | EvCache (InsertReference _ _ _) => true
  | EvCache (InsertLocalBranchDistances _ _) => true
  | _ => false
  end.

(** The distances the loop body computes for a local branch. *)
Definition branchDistances (gb : GitBase) (name : string)
  : LocalBranchDistances :=
  let m := parseDistance
             (output (getDistanceBetweenBranches env gb true name)) (0%N, 0%N) in
  let o := parseDistance
             (output (getDistanceBetweenBranches env gb false name)) (0%N, 0%N) in
  mkDistances (snd m) (fst m) (snd o) (fst o).

(** Two states of [GitBase] on which every external query of a load cycle
    gives the same output. *)
Definition sameOutputs (g g' : GitBase) : Prop :=
  currentBranch g = currentBranch g'
  /\ (forall cmd, run env g cmd = run env g' cmd)
  /\ getLastCommit env g = getLastCommit env g'
  /\ (forall toMaster name,
         getDistanceBetweenBranches env g toMaster name
         = getDistanceBetweenBranches env g' toMaster name)
  /\ fileExists env (workingDir g ++ "/" ++ ".git/info/exclude")%string
     = fileExists env (workingDir g' ++ "/" ++ ".git/info/exclude")%string
  /\ (forall cmd,
         logOutput env (workingDir g) cmd = logOutput env (workingDir g') cmd).

(** Two loaders a load callback cannot tell apart. *)
Definition alike (l l' : Loader CommitInfo) : Prop :=
  mRevCache l = mRevCache l'
  /\ mShowAll l = mShowAll l'
  /\ sameOutputs (mGitBase l) (mGitBase l').

(** What one line of [git show-ref -d] makes the loop of [loadReferences]
    insert: the hash, the type and the name of the reference, and whether the
    distances of a local branch come with it. *)
Definition referenceOfLine (reference : string)
  : option (string * ReferenceType * string * bool) :=
  let revSha := QString.left 40 reference in
  let refName := QString.mid 41 reference in
  if negb (QString.startsWith "refs/tags/" refName)
     || (QString.startsWith "refs/tags/" refName
         && QString.endsWith "^{}" refName)
  then match classify reference refName with
       | Some (type, name, localBranches) =>
           Some (revSha, type, name, localBranches)
       | None => None
       end
  else None.

Definition referencesOfLine (reference : string)
  : list (string * ReferenceType * string) :=
  match referenceOfLine reference with
  | Some (revSha, type, name, _) => [(revSha, type, name)]
  | None => []
  end.

Definition distancesOfLine (gb : GitBase) (reference : string)
  : list (string * LocalBranchDistances) :=
  match referenceOfLine reference with
  | Some (_, _, name, true) => [(name, branchDistances gb name)]
  | _ => []
  end.

(** The references and the distances one run of [loadReferences] adds. *)
Definition loadedReferences (gb : GitBase)
  : list (string * ReferenceType * string) :=
  let ret3 := run env gb "git show-ref -d" in
  if success ret3
  then flat_map referencesOfLine (QString.splitSkipEmpty LF (output ret3))
  else [].

Definition loadedDistances (gb : GitBase)
  : list (string * LocalBranchDistances) :=
  let ret3 := run env gb "git show-ref -d" in
  if success ret3
  then flat_map (distancesOfLine gb) (QString.splitSkipEmpty LF (output ret3))
  else [].

(** The untracked files and the pending-changes record one run of
    [updateWipRevision] hands to the cache ([None]: no record is handed). *)
Definition untrackedOf (gb : GitBase) : list string :=
  QString.splitSkipEmpty LF
    (output (run env gb
               (untrackedCmd
                  (fileExists env
                     (workingDir gb ++ "/" ++ ".git/info/exclude")%string)))).

Definition pendingOf (gb : GitBase) : option (string * string * string) :=
  let ret := run env gb "git rev-parse --revs-only HEAD" in
  if success ret then
    let parentSha := QString.trimmed (output ret) in
    let ret3 := run env gb ("git diff-index " ++ parentSha)%string in
    let ret4 := run env gb ("git diff-index --cached " ++ parentSha)%string in
    Some (parentSha,
          if success ret3 then output ret3 else ""%string,
          if success ret4 then output ret4 else ""%string)
  else None.

(** The actions of [updateWipRevision] on a [GitBase]: the listing of the
    untracked files and its hand-over to the cache, the HEAD lookup and, when
    HEAD resolves, the two diffs and the hand-over of the pending-changes
    record. *)
Definition wipActions (gb : GitBase) : list (Event CommitInfo) :=
  let wd := workingDir gb in
  let ret := run env gb "git rev-parse --revs-only HEAD" in
  let parentSha := QString.trimmed (output ret) in
  let ret3 := run env gb ("git diff-index " ++ parentSha)%string in
  let ret4 := run env gb ("git diff-index --cached " ++ parentSha)%string in
  [EvRun wd (untrackedCmd
               (fileExists env (wd ++ "/" ++ ".git/info/exclude")%string));
   EvCache (SetUntrackedFilesList (untrackedOf gb));
   EvRun wd "git rev-parse --revs-only HEAD"]
  ++ (if success ret then
        [EvRun wd ("git diff-index " ++ parentSha)%string;
         EvRun wd ("git diff-index --cached " ++ parentSha)%string;
         EvCache (UpdateWipCommit parentSha
                    (if success ret3 then output ret3 else ""%string)
                    (if success ret4 then output ret4 else ""%string))]
      else []).

(** The actions of the loop of [loadReferences] for one line: the insertion
    of the reference and, for a local branch, the two distance queries and
    the insertion of the distances. *)
Definition referenceActionsOfLine (gb : GitBase) (reference : string)
  : list (Event CommitInfo) :=
  match referenceOfLine reference with
  | Some (revSha, type, name, localBranches) =>
      EvCache (InsertReference revSha type name)
      :: (if localBranches
          then [EvDistance true name; EvDistance false name;
                EvCache (InsertLocalBranchDistances name
                           (branchDistances gb name))]
          else [])
  | None => []
  end.

(** The actions of [loadReferences] on a [GitBase]: the listing and, when it
    succeeds, the lookup of the last commit and the actions of every
    non-empty line, in the order of the lines. *)
Definition referenceActions (gb : GitBase) : list (Event CommitInfo) :=
  let ret3 := run env gb "git show-ref -d" in
  EvRun (workingDir gb) "git show-ref -d"
  :: (if success ret3
      then EvLastCommit
           :: flat_map (referenceActionsOfLine gb)
                (QString.splitSkipEmpty LF (output ret3))
      else []).

(** A cache with more references and distances, the rest as it is. *)
Definition withReferences (c : RevisionsCache CommitInfo)
    (refs : list (string * ReferenceType * string))
    (dists : list (string * LocalBranchDistances)) : RevisionsCache CommitInfo :=
  mkCache (reserved c) (untrackedFiles c) (wipCommit c) (commits c)
          (references c ++ refs) (distances c ++ dists).

(** The [GitBase] a successful [loadRepository] leaves: the resolved root,
    then the refreshed branch. *)
Definition resolvedGitBase (gb : GitBase) : GitBase :=
  let ret := run env gb "git rev-parse --show-cdup" in
  let root := absolutePath env
                (workingDir gb ++ "/" ++ QString.trimmed (output ret))%string in
  mkGitBase root (resolveCurrentBranch env (mkGitBase root (currentBranch gb))).

(** A method that leaves the lock, the fields of the loader and the commit
    records alone and performs only actions of the kind [P]. *)
Definition keeps {A} (P : Event CommitInfo -> bool) (m : M CommitInfo A)
  : Prop :=
  forall l,
    mLocked (after (m l)) = mLocked l
    /\ mShowAll (after (m l)) = mShowAll l
    /\ mGitBase (after (m l)) = mGitBase l
    /\ commits (mRevCache (after (m l))) = commits (mRevCache l)
    /\ Forall (fun e => P e = true) (actions (m l)).

(** A method that cannot tell two loaders that are [alike] apart. *)
Definition respects {A} (m : M CommitInfo A) : Prop :=
  forall l l', alike l l' ->
    value (m l) = value (m l') /\ alike (after (m l)) (after (m l')).

End Observations.

(** Every character of [s] satisfies [p]. *)
Fixpoint allChars (p : ascii -> bool) (s : string) : bool :=
  match s with
  | EmptyString => true
  | String c r => p c && allChars p r
  end.

Definition isDigit (c : ascii) : bool :=
  let n := nat_of_ascii c in ((48 <=? n) && (n <=? 57))%nat.

Definition notCaret (c : ascii) : bool := negb (Ascii.eqb c "^"%char).

Fixpoint countChar (c : ascii) (s : string) : nat :=
  match s with
  | EmptyString => 0
  | String d r => (if Ascii.eqb d c then 1 else 0) + countChar c r
  end.

(** ** A small repository, for the examples

    Two commits on [main], the annotated tag [v1], the lightweight tag
    [v0], the remote branches [origin/main] and [origin/fix-HEAD], one
    untracked file.  A commit token is kept as it is; the empty token does
    not decode. *)

Definition sha1 : string := "1111111111111111111111111111111111111111".
Definition sha2 : string := "2222222222222222222222222222222222222222".
Definition sha3 : string := "3333333333333333333333333333333333333333".

Definition lines (l : list string) : string :=
  String.concat "" (map (fun s => s ++ String LF "")%string l).

Definition showRefOutput : string :=
  lines [ sha1 ++ " refs/heads/main";
          sha1 ++ " refs/remotes/origin/HEAD";
          sha1 ++ " refs/remotes/origin/fix-HEAD";
          sha1 ++ " refs/remotes/origin/main";
          sha2 ++ " refs/tags/v0";
          sha3 ++ " refs/tags/v1";
          sha2 ++ " refs/tags/v1^{}" ]%string.

Definition demoRun (isRepo : bool) (untracked : string) (_ : GitBase)
  (cmd : string) : GitExecResult :=
  if negb isRepo then mkResult false "fatal: not a git repository"
  else if String.eqb cmd "git rev-parse --show-cdup" then mkResult true (String LF "")
  else if String.eqb cmd "git show-ref -d" then mkResult true showRefOutput
  else if String.eqb cmd "git rev-parse --revs-only HEAD"
       then mkResult true (sha1 ++ String LF "")
  else if QString.startsWith "git ls-files" cmd then mkResult true untracked
  else mkResult true "".

Definition demoDistance (_ : GitBase) (toMaster : bool) (_ : string)
  : GitExecResult :=
  if toMaster then mkResult true ("2" ++ String TAB "5" ++ String LF "")
  else mkResult false "fatal: no upstream configured".

(** Drops one trailing separator. *)
Definition demoAbsolutePath (p : string) : string :=
  if QString.endsWith "/" p then QString.left (String.length p - 1) p else p.

Definition demoEnv (isRepo : bool) (untracked : string) : Collaborators string :=
  mkCollaborators
    (fun token => token)
    (fun revision => negb (QString.isEmpty revision))
    (demoRun isRepo untracked)
    (fun _ => "main")
    (fun _ => mkResult true sha1)
    demoDistance
    demoAbsolutePath
    (fun _ => false)
    (fun _ _ => (sha1 ++ String NUL sha2)%string).

Definition repoEnv : Collaborators string := demoEnv true (lines ["foo.txt"]).
Definition notARepoEnv : Collaborators string := demoEnv false "".
Definition duplicatesEnv : Collaborators string :=
  demoEnv true (lines ["a.txt"; "a.txt"]).

Definition idleLoader : Loader string :=
  mkLoader false false (mkGitBase "/repo" "") emptyCache.

Definition busyLoader : Loader string :=
  mkLoader true false (mkGitBase "/repo" "main") emptyCache.

Definition unconfiguredLoader : Loader string :=
  mkLoader false false (mkGitBase "" "") emptyCache.

(** The same repository with a distance command that prints one number. *)
Definition oneNumberEnv : Collaborators string :=
  mkCollaborators
    (parseCommit repoEnv) (isValid repoEnv) (run repoEnv)
    (resolveCurrentBranch repoEnv) (getLastCommit repoEnv)
    (fun _ _ _ => mkResult true ("7" ++ String LF ""))
    (absolutePath repoEnv) (fileExists repoEnv) (logOutput repoEnv).

(** ** Facts about the string operations *)

Section StringFacts.

Lemma length_app (a b : string) :
  String.length (a ++ b) = String.length a + String.length b.
Proof. induction a as [|c a IH]; simpl; [reflexivity | now rewrite IH]. Qed.

Lemma app_empty_r (a : string) : (a ++ "")%string = a.
Proof. induction a as [|c a IH]; simpl; [reflexivity | now rewrite IH]. Qed.

Lemma app_assoc_s (a b c : string) : ((a ++ b) ++ c = a ++ (b ++ c))%string.
Proof. induction a as [|x a IH]; simpl; [reflexivity | now rewrite IH]. Qed.

Lemma left_app (a b : string) :
  QString.left (String.length a) (a ++ b) = a.
Proof.
  induction a as [|c a IH]; simpl.
  - destruct b; reflexivity.
  - now rewrite IH.
Qed.

Lemma mid_app (a b : string) :
  QString.mid (String.length a) (a ++ b) = b.
Proof. induction a as [|c a IH]; simpl; [destruct b; reflexivity | exact IH]. Qed.

Lemma left_all (n : nat) (s : string) :
  String.length s <= n -> QString.left n s = s.
Proof.
  revert n; induction s as [|c s IH]; intros [|n] H; simpl in *;
    try reflexivity; try lia.
  rewrite IH; [reflexivity | lia].
Qed.

Lemma prefix_app (p s : string) : String.prefix p (p ++ s) = true.
Proof.
  induction p as [|c p IH]; simpl.
  - destruct s; reflexivity.
  - destruct (ascii_dec c c) as [_|N]; [exact IH | now elim N].
Qed.

Lemma endsWith_app (p s : string) : QString.endsWith p (s ++ p) = true.
Proof.
  unfold QString.endsWith. rewrite length_app.
  replace (String.length s + String.length p - String.length p)
    with (String.length s) by lia.
  rewrite mid_app, String.eqb_refl, andb_true_r.
  apply Nat.leb_le; lia.
Qed.

Lemma allChars_app (p : ascii -> bool) (a b : string) :
  allChars p (a ++ b) = allChars p a && allChars p b.
Proof.
  induction a as [|c a IH]; simpl; [reflexivity|].
  now rewrite IH, andb_assoc.
Qed.

Lemma allChars_weaken (p q : ascii -> bool) (s : string) :
  (forall c, p c = true -> q c = true) ->
  allChars p s = true -> allChars q s = true.
Proof.
  intros W; induction s as [|c s IH]; simpl; [trivial|].
  intros H; apply andb_prop in H as [Hc Hs].
  now rewrite (W _ Hc), IH.
Qed.

(** The marker is taken off a name that holds no caret of its own. *)
Lemma remove_marker (n : string) :
  allChars notCaret n = true ->
  QString.remove "^{}" (n ++ "^{}") = n.
Proof.
  unfold QString.remove; simpl QString.isEmpty; cbv iota.
  induction n as [|c n IH]; intros H.
  - reflexivity.
  - simpl in H. apply andb_prop in H as [Hc Hn].
    change ((String c n ++ "^{}")%string) with (String c (n ++ "^{}")).
    unfold QString.remove_from; fold QString.remove_from.
    unfold notCaret in Hc. apply negb_true_iff in Hc.
    unfold String.prefix; fold String.prefix.
    destruct (ascii_dec "^"%char c) as [E|_].
    + subst c. discriminate Hc.
    + now rewrite IH.
Qed.

Lemma split_nonempty (sep : ascii) (s : string) : QString.split sep s <> [].
Proof.
  induction s as [|c s IH]; simpl; [discriminate|].
  destruct (Ascii.eqb c sep); [discriminate|].
  destruct (QString.split sep s); [contradiction | discriminate].
Qed.

(** One part more than there are separators. *)
Lemma split_length (sep : ascii) (s : string) :
  List.length (QString.split sep s) = S (countChar sep s).
Proof.
  induction s as [|c s IH]; simpl; [reflexivity|].
  destruct (Ascii.eqb c sep); simpl; [now rewrite IH|].
  destruct (QString.split sep s) eqn:E; simpl in *; [discriminate | exact IH].
Qed.

Lemma split_cons_char (sep c : ascii) (s : string) :
  Ascii.eqb c sep = false ->
  QString.split sep (String c s)
  = String c (hd "" (QString.split sep s)) :: tl (QString.split sep s).
Proof.
  intros H; simpl; rewrite H.
  pose proof (split_nonempty sep s).
  destruct (QString.split sep s); [contradiction | reflexivity].
Qed.

(** A separator at the end of the buffer gives one more, empty, part. *)
Lemma split_trailing_separator (sep : ascii) (s : string) :
  QString.split sep (s ++ String sep "") = QString.split sep s ++ [""%string].
Proof.
  induction s as [|c s IH]; simpl.
  - now rewrite Ascii.eqb_refl.
  - destruct (Ascii.eqb c sep); [now rewrite IH|].
    rewrite IH. pose proof (split_nonempty sep s).
    destruct (QString.split sep s); [contradiction | reflexivity].
Qed.

(** Joining the parts with the separator gives the text back. *)
Lemma concat_split (sep : ascii) (s : string) :
  String.concat (String sep "") (QString.split sep s) = s.
Proof.
  induction s as [|c s IH]; [reflexivity|].
  simpl QString.split.
  pose proof (split_nonempty sep s) as NE.
  destruct (Ascii.eqb_spec c sep) as [->|N].
  - destruct (QString.split sep s) as [|h t]; [contradiction|].
    change (String.concat (String sep "") ("" :: h :: t))%string
      with (String sep (String.concat (String sep "") (h :: t))).
    now rewrite IH.
  - destruct (QString.split sep s) as [|h t]; [contradiction|].
    rewrite <- IH. destruct t; reflexivity.
Qed.

Lemma split_no_separator (sep : ascii) (s : string) :
  allChars (fun c => negb (Ascii.eqb c sep)) s = true ->
  QString.split sep s = [s].
Proof.
  induction s as [|c s IH]; simpl; [reflexivity|].
  intros H. apply andb_prop in H as [Hc Hs].
  apply negb_true_iff in Hc. rewrite Hc, (IH Hs). reflexivity.
Qed.

Lemma split_app_separator (sep : ascii) (a b : string) :
  allChars (fun c => negb (Ascii.eqb c sep)) a = true ->
  QString.split sep (a ++ String sep b) = a :: QString.split sep b.
Proof.
  induction a as [|c a IH]; simpl.
  - intros _. now rewrite Ascii.eqb_refl.
  - intros H. apply andb_prop in H as [Hc Ha].
    apply negb_true_iff in Hc. rewrite Hc, (IH Ha). reflexivity.
Qed.

(** The parts hold no separator. *)
Lemma split_parts_clean (sep : ascii) (s : string) :
  Forall (fun part => allChars (fun c => negb (Ascii.eqb c sep)) part = true)
         (QString.split sep s).
Proof.
  induction s as [|c s IH]; simpl.
  - repeat constructor.
  - destruct (Ascii.eqb c sep) eqn:E.
    + constructor; [reflexivity | exact IH].
    + destruct (QString.split sep s) as [|h t].
      * repeat constructor. simpl. now rewrite E.
      * inversion IH; subst. constructor; [|assumption].
        simpl. now rewrite E.
Qed.

Lemma removeChar_absent (c : ascii) (s : string) :
  allChars (fun d => negb (Ascii.eqb d c)) s = true ->
  QString.removeChar c s = s.
Proof.
  induction s as [|d s IH]; simpl; [reflexivity|].
  intros H. apply andb_prop in H as [Hd Hs].
  apply negb_true_iff in Hd. now rewrite Hd, IH.
Qed.

Lemma removeChar_app (c : ascii) (a b : string) :
  QString.removeChar c (a ++ b)
  = (QString.removeChar c a ++ QString.removeChar c b)%string.
Proof.
  induction a as [|d a IH]; simpl; [reflexivity|].
  destruct (Ascii.eqb d c); simpl; now rewrite IH.
Qed.

(** A text without the letter f does not say "fatal". *)
Lemma contains_fatal_absent (s : string) :
  allChars (fun c => negb (Ascii.eqb c "f"%char)) s = true ->
  QString.contains "fatal" s = false.
Proof.
  induction s as [|c s IH]; [reflexivity|].
  cbn [allChars QString.contains String.prefix].
  intros H. apply andb_prop in H as [Hc Hs].
  apply negb_true_iff in Hc.
  destruct (ascii_dec "f"%char c) as [E|_].
  - subst c. discriminate Hc.
  - exact (IH Hs).
Qed.

Lemma digit_not_space (c : ascii) :
  isDigit c = true -> QString.isSpace c = false.
Proof. destruct c as [[] [] [] [] [] [] [] []]; vm_compute; congruence. Qed.

Lemma digit_not_char (c d : ascii) :
  isDigit d = false -> isDigit c = true -> negb (Ascii.eqb c d) = true.
Proof.
  intros Hd Hc. apply negb_true_iff. destruct (Ascii.eqb_spec c d); congruence.
Qed.

Lemma trimLeft_clean (s : string) :
  allChars (fun c => negb (QString.isSpace c)) s = true ->
  QString.trimLeft s = s.
Proof.
  destruct s as [|c s]; simpl; [reflexivity|].
  intros H. apply andb_prop in H as [Hc _].
  apply negb_true_iff in Hc. now rewrite Hc.
Qed.

Lemma trimRight_clean (s : string) :
  allChars (fun c => negb (QString.isSpace c)) s = true ->
  QString.trimRight s = s.
Proof.
  induction s as [|c s IH]; simpl; [reflexivity|].
  intros H. apply andb_prop in H as [Hc Hs].
  apply negb_true_iff in Hc. rewrite (IH Hs), Hc.
  destruct s; reflexivity.
Qed.

Lemma trimmed_clean (s : string) :
  allChars (fun c => negb (QString.isSpace c)) s = true ->
  QString.trimmed s = s.
Proof.
  intros H. unfold QString.trimmed.
  now rewrite (trimLeft_clean _ H), (trimRight_clean _ H).
Qed.

Lemma number_digits (n : N) : allChars isDigit (QString.number n) = true.
Proof.
  unfold QString.number.
  assert (G : forall d, allChars isDigit (NilEmpty.string_of_uint d) = true)
    by (induction d; simpl; auto).
  destruct (N.to_uint n);
    match goal with
    | |- allChars _ (NilZero.string_of_uint ?d) = _ =>
        first [reflexivity | exact (G d)]
    end.
Qed.

Lemma number_not_empty (n : N) : QString.number n <> ""%string.
Proof.
  unfold QString.number. destruct (N.to_uint n); simpl; discriminate.
Qed.

Lemma uint_of_number (n : N) :
  exists d, NilZero.uint_of_string (QString.number n) = Some d
            /\ N.of_uint d = n.
Proof.
  unfold QString.number.
  destruct (N.to_uint n) eqn:E;
    [ exists Decimal.zero; split; [reflexivity|];
      rewrite <- (DecimalN.Unsigned.of_to n), E; reflexivity
    | exists (N.to_uint n); rewrite E at 1;
      (split; [apply NilZero.usu; discriminate
              | apply DecimalN.Unsigned.of_to]) .. ].
Qed.

(** Reading back a printed [unsigned int]. *)
Lemma toUInt_number (n : N) :
  (n <= QString.UINT_MAX)%N -> QString.toUInt (QString.number n) = n.
Proof.
  intros Hn. unfold QString.toUInt.
  pose proof (number_digits n) as D.
  rewrite trimmed_clean
    by (apply (allChars_weaken isDigit); [|exact D];
        intros c Hc; now rewrite digit_not_space).
  destruct (uint_of_number n) as (d & Hd & Hv).
  destruct (QString.number n) as [|c r] eqn:E.
  - now apply number_not_empty in E.
  - simpl in D. apply andb_prop in D as [Dc _].
    replace (Ascii.eqb c "+"%char) with false
      by (symmetry; apply negb_true_iff, digit_not_char; [reflexivity | exact Dc]).
    rewrite Hd, Hv.
    apply N.leb_le in Hn. now rewrite Hn.
Qed.

End StringFacts.

(** ** The loader methods, statement by statement *)

Section MethodFacts.

Context {CommitInfo : Type}.
Variable env : Collaborators CommitInfo.

Lemma bind_run {A B} (m : M CommitInfo A) (f : A -> M CommitInfo B) l :
  bind m f l
  = (value (f (value (m l)) (after (m l))),
     after (f (value (m l)) (after (m l))),
     actions (m l) ++ actions (f (value (m l)) (after (m l)))).
Proof.
  unfold bind, value, after, actions.
  destruct (m l) as [[a l1] t1]; simpl.
  destruct (f a l1) as [[b l2] t2]; reflexivity.
Qed.

Lemma mid_length (n : nat) (s : string) :
  String.length (QString.mid n s) <= String.length s.
Proof.
  revert n; induction s as [|c s IH]; intros [|n]; simpl; try lia.
  specialize (IH n); lia.
Qed.

(** The distances read from "behind<TAB>ahead", with or without the line
    feed git prints after them. *)
Lemma parseDistance_pair (b a : N) (nl : string) (dflt : N * N) :
  (b <= QString.UINT_MAX)%N -> (a <= QString.UINT_MAX)%N ->
  nl = ""%string \/ nl = String LF "" ->
  parseDistance (QString.number b ++ String TAB (QString.number a) ++ nl) dflt
  = (b, a).
Proof.
  intros Hb Ha Hnl. unfold parseDistance.
  pose proof (number_digits b) as Db. pose proof (number_digits a) as Da.
  assert (NF : QString.contains "fatal"
                 (QString.number b ++ String TAB (QString.number a) ++ nl)
               = false).
  { apply contains_fatal_absent.
    rewrite allChars_app.
    change (String TAB (QString.number a) ++ nl)%string
      with (String TAB (QString.number a ++ nl)).
    cbn [allChars]. rewrite allChars_app.
    rewrite !(allChars_weaken isDigit _ _ (fun c => digit_not_char c "f"%char eq_refl))
      by assumption.
    destruct Hnl as [-> | ->]; reflexivity. }
  rewrite NF. cbn [negb].
  assert (R : QString.removeChar LF
                (QString.number b ++ String TAB (QString.number a) ++ nl)
              = (QString.number b ++ String TAB (QString.number a))%string).
  { rewrite removeChar_app.
    change (String TAB (QString.number a) ++ nl)%string
      with (String TAB (QString.number a ++ nl)).
    cbn [QString.removeChar]. change (Ascii.eqb TAB LF) with false. cbv iota.
    rewrite removeChar_app.
    rewrite !removeChar_absent
      by (apply (allChars_weaken isDigit); [|assumption];
          intros c; apply digit_not_char; reflexivity).
    destruct Hnl as [-> | ->]; cbn; now rewrite app_empty_r. }
  rewrite R.
  rewrite split_app_separator
    by (apply (allChars_weaken isDigit); [|assumption];
        intros c; apply digit_not_char; reflexivity).
  rewrite split_no_separator
    by (apply (allChars_weaken isDigit); [|assumption];
        intros c; apply digit_not_char; reflexivity).
  cbn [QString.first QString.last hd List.last].
  now rewrite !toUInt_number.
Qed.

Lemma parseDistance_fatal (out : string) (dflt : N * N) :
  QString.contains "fatal" out = true -> parseDistance out dflt = dflt.
Proof. intros H. unfold parseDistance. now rewrite H. Qed.

(** A line of [git show-ref -d]: forty characters of hash, one space, the
    name of the reference. *)
Lemma line_fields (sha refName : string) :
  String.length sha = 40 ->
  QString.left 40 (sha ++ String " " refName) = sha
  /\ QString.mid 41 (sha ++ String " " refName) = refName.
Proof.
  intros H. split.
  - rewrite <- H. apply left_app.
  - change 41 with (S 40). rewrite <- H.
    replace (S (String.length sha)) with (String.length (sha ++ " ")%string)
      by (rewrite length_app; simpl; lia).
    replace (sha ++ String " " refName)%string
      with ((sha ++ " ") ++ refName)%string
      by (now rewrite app_assoc_s).
    apply mid_app.
Qed.

(** What the loop body does with a tag line. *)
Lemma loadReference_tag (sha rest : string) (l : Loader CommitInfo) :
  String.length sha = 40 ->
  loadReference env (sha ++ String " " ("refs/tags/" ++ rest)) l
  = if QString.endsWith "^{}" ("refs/tags/" ++ rest)
    then cache (InsertReference sha Tag (QString.remove "^{}" rest)) l
    else (tt, l, []).
Proof.
  intros H. unfold loadReference.
  destruct (line_fields sha ("refs/tags/" ++ rest) H) as [-> ->].
  unfold QString.startsWith. rewrite prefix_app. cbn [negb orb andb].
  destruct (QString.endsWith "^{}" ("refs/tags/" ++ rest)); [|reflexivity].
  unfold classify, QString.startsWith. rewrite prefix_app.
  unfold QString.midn.
  change (QString.mid 10 ("refs/tags/" ++ rest)) with rest.
  rewrite left_all.
  - rewrite bind_run. unfold cache, ret, value, after, actions; simpl.
    reflexivity.
  - rewrite length_app. cbn [String.length]. rewrite length_app. lia.
Qed.

(** What the loop body does with a remote-tracking line. *)
Lemma loadReference_remote (sha rest : string) (l : Loader CommitInfo) :
  String.length sha = 40 ->
  loadReference env (sha ++ String " " ("refs/remotes/" ++ rest)) l
  = if QString.endsWith "HEAD" ("refs/remotes/" ++ rest)
    then (tt, l, [])
    else cache (InsertReference sha RemoteBranches rest) l.
Proof.
  intros H. unfold loadReference.
  destruct (line_fields sha ("refs/remotes/" ++ rest) H) as [-> ->].
  change (QString.startsWith "refs/tags/" ("refs/remotes/" ++ rest)) with false.
  cbn [negb orb andb]. unfold classify.
  change (QString.startsWith "refs/tags/" ("refs/remotes/" ++ rest)) with false.
  change (QString.startsWith "refs/heads/" ("refs/remotes/" ++ rest)) with false.
  unfold QString.startsWith. rewrite prefix_app. cbn [andb].
  destruct (QString.endsWith "HEAD" ("refs/remotes/" ++ rest)); cbn [negb].
  - reflexivity.
  - rewrite bind_run. unfold cache, ret, value, after, actions; simpl.
    reflexivity.
Qed.

(** What the loop body does with a local-branch line. *)
Lemma loadReference_local (sha name : string) (l : Loader CommitInfo) :
  String.length sha = 40 ->
  loadReference env (sha ++ String " " ("refs/heads/" ++ name)) l
  = (tt,
     mkLoader (mLocked l) (mShowAll l) (mGitBase l)
       (applyCall
          (InsertLocalBranchDistances name (branchDistances env (mGitBase l) name))
          (applyCall (InsertReference sha LocalBranch name) (mRevCache l))),
     [EvCache (InsertReference sha LocalBranch name);
      EvDistance true name; EvDistance false name;
      EvCache (InsertLocalBranchDistances name
                 (branchDistances env (mGitBase l) name))]).
Proof.
  intros H. unfold loadReference.
  destruct (line_fields sha ("refs/heads/" ++ name) H) as [-> ->].
  change (QString.startsWith "refs/tags/" ("refs/heads/" ++ name)) with false.
  cbn [negb orb andb]. unfold classify.
  change (QString.startsWith "refs/tags/" ("refs/heads/" ++ name)) with false.
  unfold QString.startsWith. rewrite prefix_app. cbv iota.
  change (QString.mid 11 ("refs/heads/" ++ name)) with name.
  unfold branchDistances, bind, cache, distanceBetweenBranches, ret.
  cbn -[parseDistance applyCall].
  destruct (parseDistance
              (output (getDistanceBetweenBranches env (mGitBase l) true name)) _)
    as [bm am].
  simpl (mGitBase _).
  destruct (parseDistance
              (output (getDistanceBetweenBranches env (mGitBase l) false name)) _)
    as [bo ao].
  reflexivity.
Qed.

End MethodFacts.

(** ** The single-flight guard *)

(** C4. A call of [loadRepository] while a load is in progress returns
    [false] and does nothing else: the loader, with its cache and its lock,
    is as it was, and no command, cache call or signal is issued. *)
Theorem loadRepository_busy {CommitInfo : Type} (env : Collaborators CommitInfo)
    (l : Loader CommitInfo) :
  mLocked l = true ->
  loadRepository env l = (false, l, []).
Proof.
  intros H. unfold loadRepository. rewrite H. reflexivity.
Qed.

Lemma loadRepository_busy_witness :
  mLocked busyLoader = true
  /\ loadRepository repoEnv busyLoader = (false, busyLoader, []).
Proof.
  split; [reflexivity | apply (loadRepository_busy repoEnv busyLoader)].
  reflexivity.
Defined.

(** C1. When the working directory is set, no load is in progress and the
    root-resolution command fails, [loadRepository] returns [false] with the
    cache cleared and the lock still taken, so that the next call is turned
    away as a concurrent load. *)
Theorem loadRepository_resolution_failure_keeps_lock {CommitInfo : Type}
    (env : Collaborators CommitInfo) (l : Loader CommitInfo) :
  mLocked l = false ->
  QString.isEmpty (workingDir (mGitBase l)) = false ->
  success (run env (mGitBase l) "git rev-parse --show-cdup") = false ->
  let r := loadRepository env l in
  value r = false
  /\ mLocked (after r) = true
  /\ mRevCache (after r) = emptyCache
  /\ actions r = [EvCache Clear; EvSetLocked true;
                  EvRun (workingDir (mGitBase l)) "git rev-parse --show-cdup"]
  /\ loadRepository env (after r) = (false, after r, []).
Proof.
  intros HL HW HR r.
  assert (E : r = (false,
                   mkLoader true (mShowAll l) (mGitBase l) emptyCache,
                   [EvCache Clear; EvSetLocked true;
                    EvRun (workingDir (mGitBase l)) "git rev-parse --show-cdup"])).
  { subst r. unfold loadRepository. rewrite HL, HW.
    unfold configureRepoDirectory, bind, cache, setLocked, runGit.
    cbn [mGitBase mLocked mShowAll mRevCache applyCall].
    rewrite HR. reflexivity. }
  rewrite E. cbn [value after actions fst snd mLocked mRevCache].
  repeat split; reflexivity.
Qed.

Lemma loadRepository_resolution_failure_keeps_lock_witness :
  let r := loadRepository notARepoEnv idleLoader in
  value r = false
  /\ mLocked (after r) = true
  /\ mRevCache (after r) = emptyCache
  /\ actions r = [EvCache Clear; EvSetLocked true;
                  EvRun "/repo" "git rev-parse --show-cdup"]
  /\ loadRepository notARepoEnv (after r) = (false, after r, []).
Proof.
  apply (loadRepository_resolution_failure_keeps_lock notARepoEnv idleLoader);
    reflexivity.
Defined.

(** ** Untracked files *)

(** C5, as the code has it. [getUntrackedFiles] runs one command, which names
    the exclude file exactly when [.git/info/exclude] exists under the
    working directory and always names [.gitignore] as the per-directory
    exclusion file; it returns the lines of the output in their order, the
    empty ones left out, each of them non-empty and free of line feeds.
    Nothing is deduplicated: the lines joined by line feeds are the output
    itself. *)
Theorem getUntrackedFiles_lists_nonempty_lines {CommitInfo : Type}
    (env : Collaborators CommitInfo) (l : Loader CommitInfo) :
  let wd := workingDir (mGitBase l) in
  let there := fileExists env (wd ++ "/" ++ ".git/info/exclude")%string in
  let cmd := untrackedCmd there in
  let out := output (run env (mGitBase l) cmd) in
  getUntrackedFiles env l
  = (filter (fun p => negb (QString.isEmpty p)) (QString.split LF out),
     l, [EvRun wd cmd])
  /\ QString.contains " --exclude-from=$.git/info/exclude$" cmd = there
  /\ QString.contains " --exclude-per-directory=$.gitignore$" cmd = true
  /\ String.concat (String LF "") (QString.split LF out) = out
  /\ Forall (fun p => p <> ""%string
                      /\ allChars (fun c => negb (Ascii.eqb c LF)) p = true)
            (value (getUntrackedFiles env l)).
Proof.
  intros wd there cmd out.
  assert (E : getUntrackedFiles env l
              = (QString.splitSkipEmpty LF out, l, [EvRun wd cmd]))
    by reflexivity.
  rewrite E. unfold QString.splitSkipEmpty. cbn [value fst].
  split; [reflexivity|].
  split; [subst cmd; destruct there; reflexivity|].
  split; [subst cmd; destruct there; reflexivity|].
  split; [apply concat_split|].
  apply Forall_forall. intros p Hp. apply filter_In in Hp as [Hin Hne].
  split.
  - intros ->. discriminate Hne.
  - pose proof (split_parts_clean LF out) as C.
    rewrite Forall_forall in C. exact (C p Hin).
Qed.

(** C5 as stated fails: a path the command lists twice is returned twice. *)
Lemma getUntrackedFiles_keeps_duplicates :
  value (getUntrackedFiles duplicatesEnv idleLoader) = ["a.txt"; "a.txt"]%string
  /\ ~ NoDup (value (getUntrackedFiles duplicatesEnv idleLoader)).
Proof.
  split; [reflexivity|].
  change (value (getUntrackedFiles duplicatesEnv idleLoader))
    with ["a.txt"; "a.txt"]%string.
  intros H. inversion H as [|x xs Hnotin _]; subst.
  apply Hnotin. left; reflexivity.
Qed.

(** ** Classification of the references *)

(** C2, as the code has it. A tag line that ends in the marker gives a [Tag]
    whose name is the tag name without the marker; a tag line that does not
    end in the marker gives nothing, whether or not a dereferenced line of
    the same tag exists. *)
Theorem tag_line_kept_only_when_dereferenced {CommitInfo : Type}
    (env : Collaborators CommitInfo) (sha name : string)
    (l : Loader CommitInfo) :
  String.length sha = 40 ->
  (allChars notCaret name = true ->
   loadReference env (sha ++ " refs/tags/" ++ name ++ "^{}") l
   = (tt,
      mkLoader (mLocked l) (mShowAll l) (mGitBase l)
               (applyCall (InsertReference sha Tag name) (mRevCache l)),
      [EvCache (InsertReference sha Tag name)]))
  /\ (QString.endsWith "^{}" ("refs/tags/" ++ name) = false ->
      loadReference env (sha ++ " refs/tags/" ++ name) l = (tt, l, [])).
Proof.
  intros H. split.
  - intros Hn.
    change (sha ++ " refs/tags/" ++ name ++ "^{}")%string
      with (sha ++ String " " ("refs/tags/" ++ (name ++ "^{}")))%string.
    rewrite (loadReference_tag env sha (name ++ "^{}") l H).
    replace ("refs/tags/" ++ name ++ "^{}")%string
      with (("refs/tags/" ++ name) ++ "^{}")%string
      by apply app_assoc_s.
    rewrite endsWith_app, (remove_marker name Hn). reflexivity.
  - intros Hn.
    change (sha ++ " refs/tags/" ++ name)%string
      with (sha ++ String " " ("refs/tags/" ++ name))%string.
    rewrite (loadReference_tag env sha name l H), Hn. reflexivity.
Qed.

Lemma tag_line_kept_only_when_dereferenced_witness :
  (loadReference repoEnv (sha2 ++ " refs/tags/" ++ "v1" ++ "^{}") idleLoader
   = (tt,
      mkLoader false false (mkGitBase "/repo" "")
               (applyCall (InsertReference sha2 Tag "v1") emptyCache),
      [EvCache (InsertReference sha2 Tag "v1")]))
  /\ loadReference repoEnv (sha2 ++ " refs/tags/" ++ "v0") idleLoader
     = (tt, idleLoader, []).
Proof.
  destruct (tag_line_kept_only_when_dereferenced repoEnv sha2 "v1" idleLoader
              eq_refl) as [K _].
  destruct (tag_line_kept_only_when_dereferenced repoEnv sha2 "v0" idleLoader
              eq_refl) as [_ D].
  split; [exact (K eq_refl) | exact (D eq_refl)].
Defined.

(** C2 as stated fails: the lightweight tag [v0] has one plain line and no
    dereferenced line, and the loader keeps no reference for it. *)
Lemma lightweight_tag_is_dropped :
  loadReference repoEnv (sha2 ++ " refs/tags/v0") idleLoader
  = (tt, idleLoader, [])
  /\ ~ In (sha2, Tag, "v0"%string)
          (references (mRevCache (after (loadCycle repoEnv idleLoader)))).
Proof.
  split; [reflexivity|].
  vm_compute. intros H.
  repeat (destruct H as [H|H]; [discriminate H|]). exact H.
Qed.

(** C7 at the input where it fails: the remote branch [origin/fix-HEAD] is
    not the [HEAD] alias, and the loader drops its line all the same, as it
    drops the alias; [origin/main] is kept. *)
Theorem remote_branch_ending_in_HEAD_is_dropped :
  loadReference repoEnv (sha1 ++ " refs/remotes/origin/fix-HEAD") idleLoader
  = (tt, idleLoader, [])
  /\ loadReference repoEnv (sha1 ++ " refs/remotes/origin/HEAD") idleLoader
     = (tt, idleLoader, [])
  /\ actions (loadReference repoEnv (sha1 ++ " refs/remotes/origin/main")
                idleLoader)
     = [EvCache (InsertReference sha1 RemoteBranches "origin/main")]
  /\ ~ In (sha1, RemoteBranches, "origin/fix-HEAD"%string)
          (references (mRevCache (after (loadCycle repoEnv idleLoader)))).
Proof.
  repeat (split; [reflexivity|]).
  vm_compute. intros H.
  repeat (destruct H as [H|H]; [discriminate H|]). exact H.
Qed.

(** C8. For a local-branch line the loader stores the distances of the
    branch: an output "behind<TAB>ahead" of a comparison (with or without the
    final line feed) gives these two counts for the master pair, respectively
    the origin pair, and an output that contains "fatal" gives 0 for both
    counts of the pair. *)
Theorem local_branch_distances {CommitInfo : Type}
    (env : Collaborators CommitInfo) (sha name : string)
    (l : Loader CommitInfo) :
  String.length sha = 40 ->
  let toMaster :=
    output (getDistanceBetweenBranches env (mGitBase l) true name) in
  let toOrigin :=
    output (getDistanceBetweenBranches env (mGitBase l) false name) in
  exists d,
    actions (loadReference env (sha ++ " refs/heads/" ++ name) l)
    = [EvCache (InsertReference sha LocalBranch name);
       EvDistance true name; EvDistance false name;
       EvCache (InsertLocalBranchDistances name d)]
    /\ distances (mRevCache (after
         (loadReference env (sha ++ " refs/heads/" ++ name) l)))
       = distances (mRevCache l) ++ [(name, d)]
    /\ (forall b a nl,
           (b <= QString.UINT_MAX)%N -> (a <= QString.UINT_MAX)%N ->
           nl = ""%string \/ nl = String LF "" ->
           (toMaster
            = QString.number b ++ String TAB (QString.number a) ++ nl)%string ->
           behindMaster d = b /\ aheadMaster d = a)
    /\ (forall b a nl,
           (b <= QString.UINT_MAX)%N -> (a <= QString.UINT_MAX)%N ->
           nl = ""%string \/ nl = String LF "" ->
           (toOrigin
            = QString.number b ++ String TAB (QString.number a) ++ nl)%string ->
           behindOrigin d = b /\ aheadOrigin d = a)
    /\ (QString.contains "fatal" toMaster = true ->
        behindMaster d = 0%N /\ aheadMaster d = 0%N)
    /\ (QString.contains "fatal" toOrigin = true ->
        behindOrigin d = 0%N /\ aheadOrigin d = 0%N).
Proof.
  intros H toMaster toOrigin.
  exists (branchDistances env (mGitBase l) name).
  change (sha ++ " refs/heads/" ++ name)%string
    with (sha ++ String " " ("refs/heads/" ++ name))%string.
  rewrite (loadReference_local env sha name l H).
  cbn [actions after fst snd mRevCache applyCall distances].
  split; [reflexivity|]. split; [reflexivity|].
  unfold branchDistances. fold toMaster toOrigin.
  cbn [behindMaster aheadMaster behindOrigin aheadOrigin].
  split; [|split; [|split]].
  - intros b a nl Hb Ha Hnl E. rewrite E.
    now rewrite (parseDistance_pair b a nl _ Hb Ha Hnl).
  - intros b a nl Hb Ha Hnl E. rewrite E.
    now rewrite (parseDistance_pair b a nl _ Hb Ha Hnl).
  - intros F. now rewrite (parseDistance_fatal _ _ F).
  - intros F. now rewrite (parseDistance_fatal _ _ F).
Qed.

Lemma local_branch_distances_witness :
  exists d,
    actions (loadReference repoEnv (sha1 ++ " refs/heads/" ++ "main") idleLoader)
    = [EvCache (InsertReference sha1 LocalBranch "main");
       EvDistance true "main"; EvDistance false "main";
       EvCache (InsertLocalBranchDistances "main" d)]
    /\ behindMaster d = 2%N /\ aheadMaster d = 5%N
    /\ behindOrigin d = 0%N /\ aheadOrigin d = 0%N.
Proof.
  destruct (local_branch_distances repoEnv sha1 "main" idleLoader eq_refl)
    as (d & Ha & _ & Hm & _ & _ & Ho).
  exists d. split; [exact Ha|].
  destruct (Hm 2%N 5%N (String LF "")) as [B A];
    [vm_compute; discriminate | vm_compute; discriminate
    | right; reflexivity | reflexivity |].
  destruct (Ho eq_refl) as [B' A'].
  repeat split; assumption.
Defined.

(** ** Frames: what a method leaves alone *)

Section Frames.

Context {CommitInfo : Type}.
Variable env : Collaborators CommitInfo.
Variable P : Event CommitInfo -> bool.

Lemma keeps_ret {A} (a : A) : keeps P (ret a).
Proof. intros l. cbn. repeat split; constructor. Qed.

Lemma keeps_bind {A B} (m : M CommitInfo A) (f : A -> M CommitInfo B) :
  keeps P m -> (forall a, keeps P (f a)) -> keeps P (bind m f).
Proof.
  intros Hm Hf l. rewrite bind_run. cbn [after actions fst snd].
  destruct (Hm l) as (L1 & S1 & G1 & C1 & A1).
  destruct (Hf (value (m l)) (after (m l))) as (L2 & S2 & G2 & C2 & A2).
  repeat split; try congruence.
  apply Forall_app; split; assumption.
Qed.

Lemma keeps_cache (call : CacheCall CommitInfo) :
  (forall c, commits (applyCall call c) = commits c) ->
  P (EvCache call) = true ->
  keeps P (cache call).
Proof.
  intros Hc Hp l. cbn. repeat split; auto.
Qed.

Lemma keeps_runGit (cmd : string) :
  (forall wd, P (EvRun wd cmd) = true) -> keeps P (runGit env cmd).
Proof. intros Hp l. cbn. repeat split; auto. Qed.

Lemma keeps_gitBase : keeps P gitBase.
Proof. intros l. cbn. repeat split; constructor. Qed.

Lemma keeps_lastCommit : P EvLastCommit = true -> keeps P (lastCommit env).
Proof. intros Hp l. cbn. repeat split; auto. Qed.

Lemma keeps_distance (toMaster : bool) (name : string) :
  P (EvDistance toMaster name) = true ->
  keeps P (distanceBetweenBranches env toMaster name).
Proof. intros Hp l. cbn. repeat split; auto. Qed.

Lemma keeps_forEach {A} (body : A -> M CommitInfo unit) (items : list A) :
  (forall x, keeps P (body x)) -> keeps P (forEach body items).
Proof.
  intros Hb. induction items as [|x items IH]; simpl.
  - apply keeps_ret.
  - apply keeps_bind; [apply Hb | intros _; exact IH].
Qed.

End Frames.

Ltac keeps_step :=
  first
    [ apply keeps_ret
    | apply keeps_gitBase
    | apply keeps_runGit; intros; reflexivity
    | apply keeps_lastCommit; reflexivity
    | apply keeps_distance; reflexivity
    | apply keeps_cache; [intros; reflexivity | reflexivity]
    | apply keeps_bind; [|intros ?]
    | match goal with
      | |- keeps _ (if ?b then _ else _) => destruct b
      | |- keeps _ (match ?x with _ => _ end) => destruct x
      end ].

Section IngestionFacts.

Context {CommitInfo : Type}.
Variable env : Collaborators CommitInfo.

Lemma updateWipRevision_keeps : keeps isWipAction (updateWipRevision env).
Proof.
  unfold updateWipRevision, getUntrackedFiles. repeat keeps_step.
Qed.

Lemma loadReference_keeps (reference : string) :
  keeps isReferenceAction (loadReference env reference).
Proof.
  unfold loadReference, classify. repeat keeps_step.
Qed.

Lemma loadReferences_keeps : keeps isReferenceAction (loadReferences env).
Proof.
  unfold loadReferences. repeat keeps_step.
  apply keeps_forEach, loadReference_keeps.
Qed.

(** The cache after the calls of the ingestion loop. *)
Lemma numbered_length {A} (start : Z) (items : list A) :
  List.length (numbered start items) = List.length items.
Proof.
  revert start; induction items as [|x items IH]; intros start; simpl;
    [reflexivity | now rewrite IH].
Qed.

Lemma numbered_values {A} (start : Z) (items : list A) :
  map snd (numbered start items) = items.
Proof.
  revert start; induction items as [|x items IH]; intros start; simpl;
    [reflexivity | now rewrite IH].
Qed.

Lemma numbered_indices {A} (start : Z) (items : list A) :
  map fst (numbered start items)
  = map (fun k => (start + Z.of_nat k)%Z) (seq 0 (List.length items)).
Proof.
  revert start; induction items as [|x items IH]; intros start.
  - reflexivity.
  - cbn [numbered map List.length seq fst]. rewrite IH, <- seq_shift, map_map.
    f_equal; [f_equal; lia|].
    apply map_ext. intros k. lia.
Qed.

Lemma validPrefix_length (tokens : list string) :
  List.length (validPrefix env tokens) <= List.length tokens.
Proof.
  induction tokens as [|t tokens IH]; simpl; [lia|].
  destruct (isValid env (parseCommit env t)); simpl; lia.
Qed.

(** The valid prefix is a prefix, all of whose tokens decode, and it ends
    at the end of the buffer or right before a token that does not. *)
Lemma validPrefix_split (tokens : list string) :
  exists rest,
    tokens = validPrefix env tokens ++ rest
    /\ Forall (fun t => isValid env (parseCommit env t) = true)
              (validPrefix env tokens)
    /\ match rest with
       | [] => True
       | t :: _ => isValid env (parseCommit env t) = false
       end.
Proof.
  induction tokens as [|t tokens (rest & E & V & R)]; simpl.
  - exists []. repeat split; constructor.
  - destruct (isValid env (parseCommit env t)) eqn:Ht.
    + exists rest. simpl. rewrite <- E. repeat split; auto.
    + exists (t :: tokens). repeat split; auto.
Qed.

Lemma validPrefix_short (tokens : list string) :
  Exists (fun t => isValid env (parseCommit env t) = false) tokens ->
  List.length (validPrefix env tokens) < List.length tokens.
Proof.
  induction 1 as [t tokens Ht | t tokens _ IH]; simpl.
  - rewrite Ht. simpl. lia.
  - destruct (isValid env (parseCommit env t)); simpl; lia.
Qed.

(** The ingestion loop, in one equation. *)
Lemma ingest_run (tokens : list string) (count : Z) (l : Loader CommitInfo) :
  let entries :=
    numbered count (map (parseCommit env) (validPrefix env tokens)) in
  mLocked (after (ingest env tokens count l)) = mLocked l
  /\ mShowAll (after (ingest env tokens count l)) = mShowAll l
  /\ mGitBase (after (ingest env tokens count l)) = mGitBase l
  /\ mRevCache (after (ingest env tokens count l))
     = mkCache (reserved (mRevCache l)) (untrackedFiles (mRevCache l))
               (wipCommit (mRevCache l)) (commits (mRevCache l) ++ entries)
               (references (mRevCache l)) (distances (mRevCache l))
  /\ actions (ingest env tokens count l) = flat_map ingestActions entries.
Proof.
  revert count l. induction tokens as [|t tokens IH]; intros count l.
  - cbn. rewrite app_nil_r. destruct l as [lk sa gb [? ? ? ? ? ?]].
    repeat split.
  - cbn [ingest validPrefix].
    destruct (isValid env (parseCommit env t)).
    + rewrite !bind_run. cbn [after actions value fst snd].
      set (l1 := after (cache (InsertCommitInfo (parseCommit env t) count) l)).
      set (l2 := after (emit (EvLoadingStep count) l1)).
      destruct (IH (count + 1)%Z l2) as (L & S & G & C & A).
      rewrite L, S, G, C, A. subst l2 l1.
      cbn. rewrite <- app_assoc. repeat split.
    + cbn. rewrite app_nil_r. destruct l as [lk sa gb [? ? ? ? ? ?]].
      repeat split.
Qed.

End IngestionFacts.

(** ** The batch-ready callback *)

Section CallbackFacts.

Context {CommitInfo : Type}.
Variable env : Collaborators CommitInfo.

Lemma inserted_app (a b : list (Event CommitInfo)) :
  inserted (a ++ b) = inserted a ++ inserted b.
Proof. apply flat_map_app. Qed.

Lemma steps_app (a b : list (Event CommitInfo)) :
  steps (a ++ b) = steps a ++ steps b.
Proof. apply flat_map_app. Qed.

Lemma announced_app (a b : list (Event CommitInfo)) :
  announced (a ++ b) = announced a ++ announced b.
Proof. apply flat_map_app. Qed.

(** The pending-changes synthesis and the reference population insert no
    commit record, emit no step and announce no total. *)
Lemma quiet_segment (Q : Event CommitInfo -> bool) (t : list (Event CommitInfo)) :
  (forall e, Q e = true ->
             insertedOf e = [] /\ stepOf e = [] /\ startedOf e = []) ->
  Forall (fun e => Q e = true) t ->
  inserted t = [] /\ steps t = [] /\ announced t = [].
Proof.
  intros HQ. induction 1 as [|e t He _ (I & S & A)]; [repeat split|].
  destruct (HQ e He) as (I' & S' & A').
  unfold inserted, steps, announced in *. simpl.
  now rewrite I, S, A, I', S', A'.
Qed.

Lemma wip_quiet (e : Event CommitInfo) :
  isWipAction e = true ->
  insertedOf e = [] /\ stepOf e = [] /\ startedOf e = [].
Proof. destruct e as [| | | | | |[]| | |]; simpl; intros; try discriminate; auto. Qed.

Lemma reference_quiet (e : Event CommitInfo) :
  isReferenceAction e = true ->
  insertedOf e = [] /\ stepOf e = [] /\ startedOf e = [].
Proof. destruct e as [| | | | | |[]| | |]; simpl; intros; try discriminate; auto. Qed.

Lemma ingestActions_observed (entries : list (Z * CommitInfo)) :
  inserted (flat_map ingestActions entries) = entries
  /\ steps (flat_map ingestActions entries) = map fst entries
  /\ announced (flat_map ingestActions entries) = [].
Proof.
  induction entries as [|[i c] entries (I & S & A)]; [repeat split|].
  unfold inserted, steps, announced in *. simpl.
  now rewrite I, S, A.
Qed.

(** [processRevision], segment by segment. *)
Lemma processRevision_run (ba : string) (l : Loader CommitInfo) :
  let total := Z.of_nat (List.length (QString.split NUL ba)) in
  let r := processRevision env ba l in
  exists wip refs,
    actions r
    = [EvCache (Configure total); EvLoadingStarted total]
      ++ wip
      ++ flat_map ingestActions (ingested env ba)
      ++ [EvSetLocked false]
      ++ refs
      ++ [EvLoadingFinished]
    /\ Forall (fun e => isWipAction e = true) wip
    /\ Forall (fun e => isReferenceAction e = true) refs
    /\ commits (mRevCache (after r))
       = commits (mRevCache l) ++ ingested env ba
    /\ mLocked (after r) = false
    /\ mShowAll (after r) = mShowAll l
    /\ mGitBase (after r) = mGitBase l
    /\ wip = actions (updateWipRevision env
                        (after (cache (Configure total) l))).
Proof.
  intros total r. subst r. unfold processRevision. fold total.
  rewrite !bind_run. cbn [after actions value fst snd].
  set (l1 := after (emit (EvLoadingStarted total)
                      (after (cache (Configure total) l)))).
  destruct (updateWipRevision_keeps env l1) as (L2 & S2 & G2 & C2 & A2).
  set (l2 := after (updateWipRevision env l1)) in *.
  destruct (ingest_run env (QString.split NUL ba) 1%Z l2)
    as (L3 & S3 & G3 & C3 & A3).
  set (l3 := after (ingest env (QString.split NUL ba) 1 l2)) in *.
  set (l4 := after (setLocked false l3)).
  destruct (loadReferences_keeps env l4) as (L5 & S5 & G5 & C5 & A5).
  set (l5 := after (loadReferences env l4)) in *.
  exists (actions (updateWipRevision env l1)), (actions (loadReferences env l4)).
  split.
  { rewrite A3. cbn [actions snd cache emit setLocked]. unfold ingested.
    cbn [app]. reflexivity. }
  split; [exact A2|]. split; [exact A5|].
  cbn [emit after fst snd].
  rewrite C5, L5, S5, G5. subst l4. cbn [setLocked after fst snd mRevCache
    mLocked mShowAll mGitBase].
  rewrite C3, S3, G3. cbn [commits]. rewrite C2, S2, G2.
  subst l1. cbn. unfold ingested. repeat split.
Qed.

(** The synthesis of the pending-changes record starts with the list of the
    untracked files. *)
Lemma updateWipRevision_head (l : Loader CommitInfo) :
  exists rest,
    actions (updateWipRevision env l)
    = EvRun (workingDir (mGitBase l))
            (untrackedCmd
               (fileExists env
                  (workingDir (mGitBase l) ++ "/" ++ ".git/info/exclude")%string))
      :: EvCache (SetUntrackedFilesList (value (getUntrackedFiles env l)))
      :: rest.
Proof.
  unfold updateWipRevision. rewrite !bind_run.
  cbn [actions snd]. eexists. reflexivity.
Qed.

End CallbackFacts.

(** C3. For every buffer, the commit records [processRevision] adds to the
    cache are those of the tokens before the first token that does not
    decode, one per token and in their order, the k-th of them under the
    sequence index k (counted from 1, position 0 being left to the
    pending-changes record); one step event is emitted per record, with
    that index; the first token that does not decode and all tokens after it
    leave nothing. *)
Theorem processRevision_inserts_valid_prefix {CommitInfo : Type}
    (env : Collaborators CommitInfo) (ba : string) (l : Loader CommitInfo) :
  let r := processRevision env ba l in
  let tokens := QString.split NUL ba in
  let good := validPrefix env tokens in
  commits (mRevCache (after r)) = commits (mRevCache l) ++ ingested env ba
  /\ inserted (actions r) = ingested env ba
  /\ steps (actions r) = map fst (ingested env ba)
  /\ map snd (ingested env ba) = map (parseCommit env) good
  /\ map fst (ingested env ba)
     = map (fun k => (1 + Z.of_nat k)%Z) (seq 0 (List.length good))
  /\ exists rest,
       tokens = good ++ rest
       /\ Forall (fun t => isValid env (parseCommit env t) = true) good
       /\ match rest with
          | [] => True
          | t :: _ => isValid env (parseCommit env t) = false
          end.
Proof.
  intros r tokens good.
  destruct (processRevision_run env ba l)
    as (wip & refs & A & W & R & C & _).
  fold r in A, C.
  destruct (quiet_segment isWipAction wip wip_quiet W) as (Iw & Sw & _).
  destruct (quiet_segment isReferenceAction refs reference_quiet R)
    as (Ir & Sr & _).
  destruct (ingestActions_observed (ingested env ba)) as (Ii & Si & _).
  split; [exact C|].
  split.
  { rewrite A, !inserted_app, Iw, Ir, Ii. cbn. now rewrite app_nil_r. }
  split.
  { rewrite A, !steps_app, Sw, Sr, Si. cbn. now rewrite app_nil_r. }
  split.
  { unfold ingested. fold tokens good. apply numbered_values. }
  split.
  { unfold ingested. fold tokens good.
    rewrite numbered_indices, length_map. reflexivity. }
  apply validPrefix_split.
Qed.

(** C10. The total announced by the loading-started event is the number of
    parts the buffer splits into at the NUL bytes: one more than there are
    NUL bytes, a NUL at the end of the buffer adding an empty last token, and
    tokens that do not decode counted as well.  The records inserted and the
    steps emitted are never more than this total, and they are fewer as soon
    as one token does not decode. *)
Theorem loading_started_announces_token_count {CommitInfo : Type}
    (env : Collaborators CommitInfo) (ba : string) (l : Loader CommitInfo) :
  let r := processRevision env ba l in
  let tokens := QString.split NUL ba in
  let total := Z.of_nat (List.length tokens) in
  announced (actions r) = [total]
  /\ total = Z.of_nat (S (countChar NUL ba))
  /\ QString.split NUL (ba ++ String NUL "") = tokens ++ [""%string]
  /\ List.length (steps (actions r)) = List.length (inserted (actions r))
  /\ (Z.of_nat (List.length (inserted (actions r))) <= total)%Z
  /\ (Exists (fun t => isValid env (parseCommit env t) = false) tokens ->
      (Z.of_nat (List.length (inserted (actions r))) < total)%Z
      /\ (Z.of_nat (List.length (steps (actions r))) < total)%Z).
Proof.
  intros r tokens total.
  destruct (processRevision_run env ba l)
    as (wip & refs & A & W & R & _).
  fold r in A. fold tokens in A. fold total in A.
  destruct (quiet_segment isWipAction wip wip_quiet W) as (Iw & Sw & Aw).
  destruct (quiet_segment isReferenceAction refs reference_quiet R)
    as (Ir & Sr & Ar).
  destruct (ingestActions_observed (ingested env ba)) as (Ii & Si & Ai).
  assert (I : inserted (actions r) = ingested env ba).
  { rewrite A, !inserted_app, Iw, Ir, Ii. cbn. now rewrite app_nil_r. }
  assert (S : steps (actions r) = map fst (ingested env ba)).
  { rewrite A, !steps_app, Sw, Sr, Si. cbn. now rewrite app_nil_r. }
  assert (N : List.length (ingested env ba)
              = List.length (validPrefix env tokens)).
  { unfold ingested. fold tokens. now rewrite numbered_length, length_map. }
  split.
  { rewrite A, !announced_app, Aw, Ar, Ai. reflexivity. }
  split.
  { subst total tokens. now rewrite split_length. }
  split; [apply split_trailing_separator|].
  rewrite S, I, length_map, N.
  split; [reflexivity|].
  split.
  { pose proof (validPrefix_length env tokens). subst total. lia. }
  intros E. pose proof (validPrefix_short env tokens E). subst total. lia.
Qed.

Lemma loading_started_announces_token_count_witness :
  let r := processRevision repoEnv (sha1 ++ String NUL "") idleLoader in
  announced (actions r) = [2%Z]
  /\ List.length (inserted (actions r)) = 1
  /\ (Z.of_nat (List.length (inserted (actions r))) < 2)%Z.
Proof.
  intros r.
  destruct (loading_started_announces_token_count repoEnv
              (sha1 ++ String NUL "") idleLoader)
    as (An & _ & _ & _ & _ & Strict).
  split; [exact An|]. split; [reflexivity|].
  apply Strict. apply Exists_cons_tl, Exists_cons_hd. reflexivity.
Defined.

(** ** Determinism of a load cycle *)

Section Determinism.

Context {CommitInfo : Type}.
Variable env : Collaborators CommitInfo.

Lemma respects_ret {A} (a : A) : respects env (ret a).
Proof. intros l l' H. split; [reflexivity | exact H]. Qed.

Lemma respects_bind {A B} (m : M CommitInfo A) (f : A -> M CommitInfo B) :
  respects env m -> (forall a, respects env (f a)) -> respects env (bind m f).
Proof.
  intros Hm Hf l l' H. rewrite !bind_run. cbn [value after fst snd].
  destruct (Hm l l' H) as [V K]. rewrite <- V.
  exact (Hf (value (m l)) _ _ K).
Qed.

Lemma respects_cache (call : CacheCall CommitInfo) : respects env (cache call).
Proof.
  intros l l' (C & S & G). split; [reflexivity|].
  unfold alike. cbn. rewrite C. auto.
Qed.

Lemma respects_emit (e : Event CommitInfo) : respects env (emit e).
Proof. intros l l' H. split; [reflexivity | exact H]. Qed.

Lemma respects_setLocked (b : bool) : respects env (setLocked b).
Proof. intros l l' (C & S & G). split; [reflexivity|]. unfold alike. cbn. auto. Qed.

Lemma respects_runGit (cmd : string) : respects env (runGit env cmd).
Proof.
  intros l l' H. split; [|exact H].
  destruct H as (_ & _ & _ & R & _). cbn. apply R.
Qed.

Lemma respects_lastCommit : respects env (lastCommit env).
Proof.
  intros l l' H. split; [|exact H].
  destruct H as (_ & _ & _ & _ & R & _). cbn. apply R.
Qed.

Lemma respects_distance (toMaster : bool) (name : string) :
  respects env (distanceBetweenBranches env toMaster name).
Proof.
  intros l l' H. split; [|exact H].
  destruct H as (_ & _ & _ & _ & _ & R & _). cbn. apply R.
Qed.

Lemma respects_forEach {A} (body : A -> M CommitInfo unit) (items : list A) :
  (forall x, respects env (body x)) -> respects env (forEach body items).
Proof.
  intros Hb. induction items as [|x items IH]; simpl.
  - apply respects_ret.
  - apply respects_bind; [apply Hb | intros _; exact IH].
Qed.

Lemma respects_getUntrackedFiles : respects env (getUntrackedFiles env).
Proof.
  intros l l' H. split; [|exact H].
  destruct H as (_ & _ & _ & R & _ & _ & F & _).
  unfold getUntrackedFiles. rewrite !bind_run.
  cbn [value after actions fst snd gitBase runGit ret].
  now rewrite F, R.
Qed.

End Determinism.

Ltac respects_step :=
  first
    [ apply respects_ret
    | apply respects_getUntrackedFiles
    | apply respects_runGit
    | apply respects_lastCommit
    | apply respects_distance
    | apply respects_cache
    | apply respects_emit
    | apply respects_setLocked
    | apply respects_bind; [|intros ?]
    | match goal with
      | |- respects _ (if ?b then _ else _) => destruct b
      | |- respects _ (match ?x with _ => _ end) => destruct x
      end ].

Section CycleFacts.

Context {CommitInfo : Type}.
Variable env : Collaborators CommitInfo.

Lemma respects_updateWipRevision : respects env (updateWipRevision env).
Proof. unfold updateWipRevision. repeat respects_step. Qed.

Lemma respects_loadReference (reference : string) :
  respects env (loadReference env reference).
Proof. unfold loadReference, classify. repeat respects_step. Qed.

Lemma respects_loadReferences : respects env (loadReferences env).
Proof.
  unfold loadReferences. repeat respects_step.
  apply respects_forEach, respects_loadReference.
Qed.

Lemma respects_ingest (tokens : list string) (count : Z) :
  respects env (ingest env tokens count).
Proof.
  revert count. induction tokens as [|t tokens IH]; intros count; simpl.
  - apply respects_ret.
  - repeat respects_step. apply IH.
Qed.

Lemma respects_processRevision (ba : string) :
  respects env (processRevision env ba).
Proof.
  unfold processRevision. repeat respects_step;
    first [ apply respects_ingest
          | apply respects_forEach, respects_loadReference ].
Qed.

(** When [loadRepository] starts a load, the cache is empty. *)
Lemma loadRepository_started (l : Loader CommitInfo) :
  value (loadRepository env l) = true ->
  mRevCache (after (loadRepository env l)) = emptyCache
  /\ mShowAll (after (loadRepository env l)) = mShowAll l.
Proof.
  unfold loadRepository.
  destruct (mLocked l); [discriminate|].
  destruct (QString.isEmpty (workingDir (mGitBase l))); [discriminate|].
  unfold configureRepoDirectory, bind, cache, setLocked, runGit,
    updateCurrentBranch, requestRevisions, gitBase, setGitBase, ret.
  cbn [mGitBase mLocked mShowAll mRevCache applyCall].
  destruct (success _); cbn; [auto | discriminate].
Qed.

(** A full cycle ends where the callback ends. *)
Lemma loadCycle_full (l : Loader CommitInfo) :
  value (loadCycle env l) = true ->
  let l1 := after (loadRepository env l) in
  value (loadRepository env l) = true
  /\ after (loadCycle env l)
     = after (processRevision env
                (logOutput env (workingDir (mGitBase l1)) (baseCmd l1)) l1).
Proof.
  unfold loadCycle. rewrite bind_run. cbn [value after fst snd].
  destruct (value (loadRepository env l)).
  - intros _. split; [reflexivity|]. now rewrite bind_run.
  - discriminate.
Qed.

End CycleFacts.

(** C9. Two full load cycles in a row, the second of which gets from every
    external query the output the first got, leave the same cache: the same
    commit records under the same sequence indices, the same references, the
    same distances, the same pending changes. *)
Theorem load_cycle_twice_same_cache {CommitInfo : Type}
    (env : Collaborators CommitInfo) (l : Loader CommitInfo) :
  let r1 := loadCycle env l in
  let r2 := loadCycle env (after r1) in
  value r1 = true ->
  value r2 = true ->
  sameOutputs env (mGitBase (after r1)) (mGitBase (after r2)) ->
  mRevCache (after r2) = mRevCache (after r1).
Proof.
  intros r1 r2 F1 F2 Same.
  destruct (loadCycle_full env l F1) as [T1 E1].
  destruct (loadCycle_full env (after r1) F2) as [T2 E2].
  fold r1 in E1. fold r2 in E2.
  set (l1 := after (loadRepository env l)) in *.
  set (l2 := after (loadRepository env (after r1))) in *.
  destruct (loadRepository_started env l T1) as [C1 S1].
  destruct (loadRepository_started env (after r1) T2) as [C2 S2].
  fold l1 in C1, S1. fold l2 in C2, S2.
  destruct (processRevision_run env
              (logOutput env (workingDir (mGitBase l1)) (baseCmd l1)) l1)
    as (_ & _ & _ & _ & _ & _ & _ & Sa & Ga & _).
  destruct (processRevision_run env
              (logOutput env (workingDir (mGitBase l2)) (baseCmd l2)) l2)
    as (_ & _ & _ & _ & _ & _ & _ & _ & Gb & _).
  rewrite <- E1 in Sa, Ga. rewrite <- E2 in Gb.
  rewrite Ga, Gb in Same.
  assert (A : alike env l1 l2).
  { unfold alike. rewrite C1, C2, S1, S2, Sa, S1. auto. }
  assert (B : logOutput env (workingDir (mGitBase l2)) (baseCmd l2)
              = logOutput env (workingDir (mGitBase l1)) (baseCmd l1)).
  { destruct A as (_ & Sh & Br & _ & _ & _ & _ & Lo).
    unfold baseCmd. rewrite Sh, Br. symmetry. apply Lo. }
  rewrite B in E2.
  destruct (respects_processRevision env
              (logOutput env (workingDir (mGitBase l1)) (baseCmd l1))
              l1 l2 A) as (_ & K & _).
  rewrite E1, E2. symmetry. exact K.
Qed.

Lemma load_cycle_twice_same_cache_witness :
  let r1 := loadCycle repoEnv idleLoader in
  let r2 := loadCycle repoEnv (after r1) in
  mRevCache (after r2) = mRevCache (after r1).
Proof.
  apply (load_cycle_twice_same_cache repoEnv idleLoader).
  - vm_compute. reflexivity.
  - vm_compute. reflexivity.
  - assert (E1 : mGitBase (after (loadCycle repoEnv idleLoader))
                 = mkGitBase "/repo" "main")
      by (vm_compute; reflexivity).
    assert (E2 : mGitBase (after (loadCycle repoEnv
                                    (after (loadCycle repoEnv idleLoader))))
                 = mkGitBase "/repo" "main")
      by (vm_compute; reflexivity).
    rewrite E1, E2. repeat split.
Defined.

(** ** Starting a load *)

Section StartFacts.

Context {CommitInfo : Type}.
Variable env : Collaborators CommitInfo.

(** [loadRepository], when it gets past both guards and the root resolves. *)
Lemma loadRepository_run (l : Loader CommitInfo) :
  mLocked l = false ->
  QString.isEmpty (workingDir (mGitBase l)) = false ->
  success (run env (mGitBase l) "git rev-parse --show-cdup") = true ->
  let l' := mkLoader true (mShowAll l) (resolvedGitBase env (mGitBase l))
                     emptyCache in
  loadRepository env l
  = (true, l',
     [EvCache Clear; EvSetLocked true;
      EvRun (workingDir (mGitBase l)) "git rev-parse --show-cdup";
      EvUpdateCurrentBranch;
      EvRequest (workingDir (mGitBase l')) (baseCmd l')]).
Proof.
  intros HL HW HR l'. unfold loadRepository. rewrite HL, HW.
  unfold configureRepoDirectory, bind, cache, setLocked, runGit,
    updateCurrentBranch, requestRevisions, gitBase, setGitBase, ret.
  cbn [mGitBase mLocked mShowAll mRevCache applyCall].
  rewrite HR. reflexivity.
Qed.

Lemma loadRepository_true_inv (l : Loader CommitInfo) :
  value (loadRepository env l) = true ->
  mLocked l = false
  /\ QString.isEmpty (workingDir (mGitBase l)) = false
  /\ success (run env (mGitBase l) "git rev-parse --show-cdup") = true.
Proof.
  unfold loadRepository.
  destruct (mLocked l); [discriminate|].
  destruct (QString.isEmpty (workingDir (mGitBase l))); [discriminate|].
  unfold configureRepoDirectory, bind, cache, setLocked, runGit,
    updateCurrentBranch, requestRevisions, gitBase, setGitBase, ret.
  cbn [mGitBase mLocked mShowAll mRevCache applyCall].
  destruct (success _); cbn; [auto | discriminate].
Qed.

End StartFacts.

(** X1. Without a working directory, [loadRepository] returns [false] and
    does nothing: unlike a failed root resolution, it neither clears the
    cache nor takes the lock, and no command is run. *)
Theorem loadRepository_no_working_directory {CommitInfo : Type}
    (env : Collaborators CommitInfo) (l : Loader CommitInfo) :
  mLocked l = false ->
  QString.isEmpty (workingDir (mGitBase l)) = true ->
  loadRepository env l = (false, l, []).
Proof.
  intros HL HW. unfold loadRepository. rewrite HL, HW. reflexivity.
Qed.

Lemma loadRepository_no_working_directory_witness :
  loadRepository repoEnv unconfiguredLoader = (false, unconfiguredLoader, []).
Proof.
  apply (loadRepository_no_working_directory repoEnv unconfiguredLoader);
    reflexivity.
Defined.

(** X2. [loadRepository] returns [true] exactly when no load is in progress,
    a working directory is set and the root-resolution command succeeds. *)
Theorem loadRepository_starts_iff {CommitInfo : Type}
    (env : Collaborators CommitInfo) (l : Loader CommitInfo) :
  value (loadRepository env l) = true
  <-> mLocked l = false
      /\ QString.isEmpty (workingDir (mGitBase l)) = false
      /\ success (run env (mGitBase l) "git rev-parse --show-cdup") = true.
Proof.
  split.
  - apply loadRepository_true_inv.
  - intros (HL & HW & HR).
    now rewrite (loadRepository_run env l HL HW HR).
Qed.

(** X3. A load that starts clears the cache, takes the lock, resolves the
    root with a command run in the old working directory, moves the working
    directory to the absolute path of "old/offset" (the offset trimmed),
    refreshes the current branch there, and requests the log in the new
    working directory, for the refreshed branch or for all branches. *)
Theorem loadRepository_success_path {CommitInfo : Type}
    (env : Collaborators CommitInfo) (l : Loader CommitInfo) :
  mLocked l = false ->
  QString.isEmpty (workingDir (mGitBase l)) = false ->
  success (run env (mGitBase l) "git rev-parse --show-cdup") = true ->
  let offset :=
    QString.trimmed
      (output (run env (mGitBase l) "git rev-parse --show-cdup")) in
  let root :=
    absolutePath env (workingDir (mGitBase l) ++ "/" ++ offset)%string in
  let branch :=
    resolveCurrentBranch env (mkGitBase root (currentBranch (mGitBase l))) in
  let r := loadRepository env l in
  value r = true
  /\ after r = mkLoader true (mShowAll l) (mkGitBase root branch) emptyCache
  /\ actions r
     = [EvCache Clear; EvSetLocked true;
        EvRun (workingDir (mGitBase l)) "git rev-parse --show-cdup";
        EvUpdateCurrentBranch;
        EvRequest root
          ("git log --date-order --no-color --log-size --parents --boundary -z --pretty=format:"
           ++ GIT_LOG_FORMAT
           ++ (if mShowAll l then "--all" else branch))%string].
Proof.
  intros HL HW HR offset root branch r. subst r.
  rewrite (loadRepository_run env l HL HW HR).
  repeat split.
Qed.

Lemma loadRepository_success_path_witness :
  let r := loadRepository repoEnv idleLoader in
  value r = true
  /\ after r = mkLoader true false (mkGitBase "/repo" "main") emptyCache
  /\ actions r
     = [EvCache Clear; EvSetLocked true;
        EvRun "/repo" "git rev-parse --show-cdup";
        EvUpdateCurrentBranch;
        EvRequest "/repo"
          ("git log --date-order --no-color --log-size --parents --boundary -z --pretty=format:"
           ++ GIT_LOG_FORMAT ++ "main")%string].
Proof.
  apply (loadRepository_success_path repoEnv idleLoader); reflexivity.
Defined.

(** X4. Single flight.  Once [loadRepository] has returned [true], every
    further call before the callback returns [false] and changes nothing;
    the callback releases the lock and leaves the resolved root and branch
    in place. *)
Theorem load_in_flight_then_released {CommitInfo : Type}
    (env : Collaborators CommitInfo) (l : Loader CommitInfo) :
  value (loadRepository env l) = true ->
  let started := after (loadRepository env l) in
  loadRepository env started = (false, started, [])
  /\ mLocked (after (loadCycle env l)) = false
  /\ mGitBase (after (loadCycle env l)) = resolvedGitBase env (mGitBase l)
  /\ mShowAll (after (loadCycle env l)) = mShowAll l.
Proof.
  intros T started.
  destruct (loadRepository_true_inv env l T) as (HL & HW & HR).
  pose proof (loadRepository_run env l HL HW HR) as E. cbv zeta in E.
  assert (C : value (loadCycle env l) = true).
  { unfold loadCycle. rewrite bind_run, T. now rewrite bind_run. }
  destruct (loadCycle_full env l C) as [_ F]. rewrite F.
  destruct (processRevision_run env
              (logOutput env
                 (workingDir (mGitBase (after (loadRepository env l))))
                 (baseCmd (after (loadRepository env l))))
              (after (loadRepository env l)))
    as (_ & _ & _ & _ & _ & _ & L & S & G & _).
  rewrite L, S, G. subst started. rewrite E.
  cbn [after fst snd mGitBase mShowAll]. repeat split.
Qed.

Lemma load_in_flight_then_released_witness :
  let started := after (loadRepository repoEnv idleLoader) in
  loadRepository repoEnv started = (false, started, [])
  /\ mLocked (after (loadCycle repoEnv idleLoader)) = false
  /\ mGitBase (after (loadCycle repoEnv idleLoader))
     = resolvedGitBase repoEnv (mGitBase idleLoader)
  /\ mShowAll (after (loadCycle repoEnv idleLoader)) = mShowAll idleLoader.
Proof.
  apply (load_in_flight_then_released repoEnv idleLoader).
  vm_compute. reflexivity.
Defined.

(** ** The pending-changes record *)

Section PendingFacts.

Context {CommitInfo : Type}.
Variable env : Collaborators CommitInfo.

(** [updateWipRevision], in one equation. *)
Lemma updateWipRevision_run (l : Loader CommitInfo) :
  let gb := mGitBase l in
  let c := mRevCache l in
  after (updateWipRevision env l)
  = mkLoader (mLocked l) (mShowAll l) gb
      (mkCache (reserved c) (untrackedOf env gb)
               (match pendingOf env gb with
                | Some w => Some w
                | None => wipCommit c
                end)
               (commits c) (references c) (distances c)).
Proof.
  intros gb c. unfold updateWipRevision, getUntrackedFiles.
  rewrite !bind_run.
  cbn [value after actions fst snd gitBase runGit ret cache mGitBase].
  unfold pendingOf, untrackedOf. fold gb.
  destruct (success (run env gb "git rev-parse --revs-only HEAD")).
  - rewrite !bind_run.
    cbn [value after actions fst snd runGit cache mGitBase mLocked mShowAll
         mRevCache applyCall reserved untrackedFiles wipCommit commits
         references distances].
    reflexivity.
  - cbn [ret after fst snd mLocked mShowAll mGitBase mRevCache applyCall
         reserved untrackedFiles wipCommit commits references distances].
    reflexivity.
Qed.

End PendingFacts.

(** X5. When the HEAD lookup fails, [updateWipRevision] still stores the
    untracked files, but runs no diff and hands no pending-changes record to
    the cache: the record the cache held stays. *)
Theorem updateWipRevision_without_head {CommitInfo : Type}
    (env : Collaborators CommitInfo) (l : Loader CommitInfo) :
  success (run env (mGitBase l) "git rev-parse --revs-only HEAD") = false ->
  let wd := workingDir (mGitBase l) in
  let r := updateWipRevision env l in
  actions r
  = [EvRun wd (untrackedCmd
                 (fileExists env (wd ++ "/" ++ ".git/info/exclude")%string));
     EvCache (SetUntrackedFilesList (untrackedOf env (mGitBase l)));
     EvRun wd "git rev-parse --revs-only HEAD"]
  /\ wipCommit (mRevCache (after r)) = wipCommit (mRevCache l)
  /\ untrackedFiles (mRevCache (after r)) = untrackedOf env (mGitBase l).
Proof.
  intros H wd r. subst r. split.
  - unfold updateWipRevision, getUntrackedFiles. rewrite !bind_run.
    cbn [value after actions fst snd gitBase runGit ret cache mGitBase].
    rewrite H. reflexivity.
  - rewrite updateWipRevision_run. unfold pendingOf. rewrite H.
    split; reflexivity.
Qed.

Lemma updateWipRevision_without_head_witness :
  let r := updateWipRevision notARepoEnv idleLoader in
  actions r
  = [EvRun "/repo" "git ls-files --others --exclude-per-directory=$.gitignore$";
     EvCache (SetUntrackedFilesList
                (untrackedOf notARepoEnv (mGitBase idleLoader)));
     EvRun "/repo" "git rev-parse --revs-only HEAD"]
  /\ wipCommit (mRevCache (after r)) = None
  /\ untrackedFiles (mRevCache (after r))
     = untrackedOf notARepoEnv (mGitBase idleLoader).
Proof.
  apply (updateWipRevision_without_head notARepoEnv idleLoader). reflexivity.
Defined.

(** X6. When the HEAD lookup succeeds, the two diffs are taken against the
    trimmed output of the lookup, the unstaged one first, and the record
    handed to the cache holds that hash and the two diff texts, a diff that
    failed counting as the empty text. *)
Theorem updateWipRevision_with_head {CommitInfo : Type}
    (env : Collaborators CommitInfo) (l : Loader CommitInfo) :
  success (run env (mGitBase l) "git rev-parse --revs-only HEAD") = true ->
  let gb := mGitBase l in
  let wd := workingDir gb in
  let parentSha :=
    QString.trimmed (output (run env gb "git rev-parse --revs-only HEAD")) in
  let ret3 := run env gb ("git diff-index " ++ parentSha)%string in
  let ret4 := run env gb ("git diff-index --cached " ++ parentSha)%string in
  let diffIndex := if success ret3 then output ret3 else ""%string in
  let diffIndexCached := if success ret4 then output ret4 else ""%string in
  let r := updateWipRevision env l in
  actions r
  = [EvRun wd (untrackedCmd
                 (fileExists env (wd ++ "/" ++ ".git/info/exclude")%string));
     EvCache (SetUntrackedFilesList (untrackedOf env gb));
     EvRun wd "git rev-parse --revs-only HEAD";
     EvRun wd ("git diff-index " ++ parentSha)%string;
     EvRun wd ("git diff-index --cached " ++ parentSha)%string;
     EvCache (UpdateWipCommit parentSha diffIndex diffIndexCached)]
  /\ wipCommit (mRevCache (after r))
     = Some (parentSha, diffIndex, diffIndexCached).
Proof.
  intros H gb wd parentSha ret3 ret4 diffIndex diffIndexCached r. subst r.
  split.
  - unfold updateWipRevision, getUntrackedFiles. rewrite !bind_run.
    cbn [value after actions fst snd gitBase runGit ret cache mGitBase].
    rewrite H. rewrite !bind_run.
    cbn [value after actions fst snd runGit cache mGitBase app].
    reflexivity.
  - rewrite updateWipRevision_run. unfold pendingOf. rewrite H.
    reflexivity.
Qed.

Lemma updateWipRevision_with_head_witness :
  let r := updateWipRevision repoEnv idleLoader in
  actions r
  = [EvRun "/repo" "git ls-files --others --exclude-per-directory=$.gitignore$";
     EvCache (SetUntrackedFilesList ["foo.txt"%string]);
     EvRun "/repo" "git rev-parse --revs-only HEAD";
     EvRun "/repo" ("git diff-index " ++ sha1)%string;
     EvRun "/repo" ("git diff-index --cached " ++ sha1)%string;
     EvCache (UpdateWipCommit sha1 "" "")]
  /\ wipCommit (mRevCache (after r)) = Some (sha1, ""%string, ""%string).
Proof.
  apply (updateWipRevision_with_head repoEnv idleLoader). reflexivity.
Defined.

(** ** The loop over the references, line by line *)

Section ReferenceFacts.

Context {CommitInfo : Type}.
Variable env : Collaborators CommitInfo.

Lemma mid_past_end (n : nat) (s : string) :
  String.length s <= n -> QString.mid n s = ""%string.
Proof.
  revert n; induction s as [|c s IH]; intros [|n] H; simpl in *;
    try reflexivity; try lia.
  apply IH; lia.
Qed.

Lemma mid_app_plus (a s : string) (k : nat) :
  QString.mid (String.length a + k) (a ++ s) = QString.mid k s.
Proof. induction a as [|c a IH]; simpl; [reflexivity | exact IH]. Qed.

(** A suffix test looks at the end of the text only. *)
Lemma endsWith_app_r (p a s : string) :
  String.length p <= String.length s ->
  QString.endsWith p (a ++ s) = QString.endsWith p s.
Proof.
  intros H. unfold QString.endsWith. rewrite length_app.
  replace (String.length a + String.length s - String.length p)
    with (String.length a + (String.length s - String.length p)) by lia.
  rewrite mid_app_plus.
  assert (L1 : (String.length p <=? String.length a + String.length s)%nat
               = true) by (apply Nat.leb_le; lia).
  assert (L2 : (String.length p <=? String.length s)%nat = true)
    by (apply Nat.leb_le; lia).
  now rewrite L1, L2.
Qed.

Lemma endsWith_HEAD_remote (rest : string) :
  QString.endsWith "HEAD" ("refs/remotes/" ++ rest)
  = QString.endsWith "HEAD" rest.
Proof.
  destruct rest as [|a [|b [|c [|d rest]]]]; try reflexivity.
  apply endsWith_app_r. simpl. lia.
Qed.

Lemma withReferences_nil (c : RevisionsCache CommitInfo) :
  withReferences c [] [] = c.
Proof. destruct c. unfold withReferences. cbn. now rewrite !app_nil_r. Qed.

Lemma withReferences_twice (c : RevisionsCache CommitInfo) r1 d1 r2 d2 :
  withReferences (withReferences c r1 d1) r2 d2
  = withReferences c (r1 ++ r2) (d1 ++ d2).
Proof. unfold withReferences. cbn. now rewrite !app_assoc. Qed.

(** The loader after the loop body, for any line. *)
Lemma loadReference_effect (reference : string) (l : Loader CommitInfo) :
  after (loadReference env reference l)
  = mkLoader (mLocked l) (mShowAll l) (mGitBase l)
      (withReferences (mRevCache l) (referencesOfLine reference)
                      (distancesOfLine env (mGitBase l) reference)).
Proof.
  assert (Same : l = mkLoader (mLocked l) (mShowAll l) (mGitBase l)
                              (withReferences (mRevCache l) [] [])).
  { rewrite withReferences_nil. destruct l; reflexivity. }
  unfold loadReference, referencesOfLine, distancesOfLine, referenceOfLine.
  destruct (negb (QString.startsWith "refs/tags/" (QString.mid 41 reference))
            || (QString.startsWith "refs/tags/" (QString.mid 41 reference)
                && QString.endsWith "^{}" (QString.mid 41 reference)));
    [|exact Same].
  destruct (classify reference (QString.mid 41 reference))
    as [[[type name] [|]]|]; [| |exact Same].
  - unfold branchDistances, bind, cache, distanceBetweenBranches, ret.
    cbn -[parseDistance applyCall withReferences].
    destruct (parseDistance
                (output (getDistanceBetweenBranches env (mGitBase l) true name)) _)
      as [bm am].
    simpl (mGitBase _).
    destruct (parseDistance
                (output (getDistanceBetweenBranches env (mGitBase l) false name)) _)
      as [bo ao].
    reflexivity.
  - rewrite bind_run. unfold cache, ret, after; cbn. unfold withReferences.
    now rewrite app_nil_r.
Qed.

Lemma forEach_loadReference_effect (refLines : list string)
    (l : Loader CommitInfo) :
  after (forEach (loadReference env) refLines l)
  = mkLoader (mLocked l) (mShowAll l) (mGitBase l)
      (withReferences (mRevCache l) (flat_map referencesOfLine refLines)
         (flat_map (distancesOfLine env (mGitBase l)) refLines)).
Proof.
  revert l. induction refLines as [|x refLines IH]; intros l.
  - cbn. rewrite withReferences_nil. destruct l; reflexivity.
  - cbn [forEach flat_map]. rewrite bind_run. cbn [after fst snd].
    rewrite IH, loadReference_effect.
    cbn [mLocked mShowAll mGitBase mRevCache].
    now rewrite withReferences_twice.
Qed.

(** [loadReferences], as an effect on the loader. *)
Lemma loadReferences_effect (l : Loader CommitInfo) :
  after (loadReferences env l)
  = mkLoader (mLocked l) (mShowAll l) (mGitBase l)
      (withReferences (mRevCache l) (loadedReferences env (mGitBase l))
                      (loadedDistances env (mGitBase l))).
Proof.
  unfold loadReferences, loadedReferences, loadedDistances.
  rewrite bind_run. cbn [value after actions fst snd runGit].
  destruct (success (run env (mGitBase l) "git show-ref -d")).
  - rewrite bind_run. cbn [value after actions fst snd lastCommit].
    apply forEach_loadReference_effect.
  - cbn. rewrite withReferences_nil. destruct l; reflexivity.
Qed.

Lemma parseDistance_single (n : N) (nl : string) (dflt : N * N) :
  (n <= QString.UINT_MAX)%N ->
  nl = ""%string \/ nl = String LF "" ->
  parseDistance (QString.number n ++ nl) dflt = (n, n).
Proof.
  intros Hn Hnl. unfold parseDistance.
  pose proof (number_digits n) as D.
  assert (NF : QString.contains "fatal" (QString.number n ++ nl) = false).
  { apply contains_fatal_absent. rewrite allChars_app.
    rewrite (allChars_weaken isDigit _ _
               (fun c => digit_not_char c "f"%char eq_refl) D).
    destruct Hnl as [-> | ->]; reflexivity. }
  rewrite NF. cbn [negb].
  assert (R : QString.removeChar LF (QString.number n ++ nl)
              = QString.number n).
  { rewrite removeChar_app.
    rewrite removeChar_absent
      by (apply (allChars_weaken isDigit); [|assumption];
          intros c; apply digit_not_char; reflexivity).
    destruct Hnl as [-> | ->]; cbn; now rewrite app_empty_r. }
  rewrite R.
  rewrite split_no_separator
    by (apply (allChars_weaken isDigit); [|assumption];
        intros c; apply digit_not_char; reflexivity).
  cbn [QString.first QString.last hd List.last].
  now rewrite toUInt_number.
Qed.

End ReferenceFacts.

(** X7. A line whose reference is neither under refs/tags/, nor under
    refs/heads/, nor under refs/remotes/ is skipped: nothing is inserted and
    no distance is asked for. *)
Theorem other_namespace_is_skipped {CommitInfo : Type}
    (env : Collaborators CommitInfo) (sha refName : string)
    (l : Loader CommitInfo) :
  String.length sha = 40 ->
  QString.startsWith "refs/tags/" refName = false ->
  QString.startsWith "refs/heads/" refName = false ->
  QString.startsWith "refs/remotes/" refName = false ->
  loadReference env (sha ++ " " ++ refName) l = (tt, l, []).
Proof.
  intros H HT HH HR.
  change (sha ++ " " ++ refName)%string with (sha ++ String " " refName)%string.
  unfold loadReference.
  destruct (line_fields sha refName H) as [-> ->].
  rewrite HT. cbn [negb orb]. unfold classify. rewrite HT, HH, HR.
  reflexivity.
Qed.

Lemma other_namespace_is_skipped_witness :
  loadReference repoEnv (sha1 ++ " " ++ "refs/stash") idleLoader
  = (tt, idleLoader, []).
Proof.
  apply (other_namespace_is_skipped repoEnv sha1 "refs/stash" idleLoader);
    reflexivity.
Defined.

(** X8. A line of at most 41 characters has no reference name after the hash
    and the separator, and is skipped. *)
Theorem short_line_is_skipped {CommitInfo : Type}
    (env : Collaborators CommitInfo) (reference : string)
    (l : Loader CommitInfo) :
  String.length reference <= 41 ->
  loadReference env reference l = (tt, l, []).
Proof.
  intros H. unfold loadReference.
  rewrite (mid_past_end 41 reference H). reflexivity.
Qed.

Lemma short_line_is_skipped_witness :
  loadReference repoEnv sha1 idleLoader = (tt, idleLoader, []).
Proof.
  apply (short_line_is_skipped repoEnv sha1 idleLoader).
  vm_compute. lia.
Defined.

(** X9. A line under refs/remotes/ is kept as a remote branch, named by all
    that follows the prefix, exactly when that name does not end in "HEAD";
    otherwise the line is skipped. *)
Theorem remote_line_kept_unless_HEAD_suffix {CommitInfo : Type}
    (env : Collaborators CommitInfo) (sha rest : string)
    (l : Loader CommitInfo) :
  String.length sha = 40 ->
  loadReference env (sha ++ " refs/remotes/" ++ rest) l
  = if QString.endsWith "HEAD" rest
    then (tt, l, [])
    else (tt,
          mkLoader (mLocked l) (mShowAll l) (mGitBase l)
            (applyCall (InsertReference sha RemoteBranches rest) (mRevCache l)),
          [EvCache (InsertReference sha RemoteBranches rest)]).
Proof.
  intros H.
  change (sha ++ " refs/remotes/" ++ rest)%string
    with (sha ++ String " " ("refs/remotes/" ++ rest))%string.
  rewrite (loadReference_remote env sha rest l H), endsWith_HEAD_remote.
  reflexivity.
Qed.

Lemma remote_line_kept_unless_HEAD_suffix_witness :
  loadReference repoEnv (sha1 ++ " refs/remotes/" ++ "origin/main") idleLoader
  = (tt,
     mkLoader false false (mkGitBase "/repo" "")
       (applyCall (InsertReference sha1 RemoteBranches "origin/main") emptyCache),
     [EvCache (InsertReference sha1 RemoteBranches "origin/main")]).
Proof.
  exact (remote_line_kept_unless_HEAD_suffix repoEnv sha1 "origin/main"
           idleLoader eq_refl).
Defined.

(** X10. When [git show-ref -d] fails, [loadReferences] stops there: the
    loader and its cache are as before, and neither the last commit nor any
    distance is asked for. *)
Theorem loadReferences_listing_failure {CommitInfo : Type}
    (env : Collaborators CommitInfo) (l : Loader CommitInfo) :
  success (run env (mGitBase l) "git show-ref -d") = false ->
  loadReferences env l
  = (tt, l, [EvRun (workingDir (mGitBase l)) "git show-ref -d"]).
Proof.
  intros H. unfold loadReferences, bind, runGit. rewrite H. reflexivity.
Qed.

Lemma loadReferences_listing_failure_witness :
  loadReferences notARepoEnv idleLoader
  = (tt, idleLoader, [EvRun "/repo" "git show-ref -d"]).
Proof.
  apply (loadReferences_listing_failure notARepoEnv idleLoader). reflexivity.
Defined.

(** X11. When the listing succeeds, [loadReferences] appends to the cache one
    reference per line that passes the filter, in the order of the lines, and
    one distance entry per local-branch line, in the same order; the commit
    records, the pending changes, the untracked files, the lock and [GitBase]
    are left alone. *)
Theorem loadReferences_appends_in_line_order {CommitInfo : Type}
    (env : Collaborators CommitInfo) (l : Loader CommitInfo) :
  success (run env (mGitBase l) "git show-ref -d") = true ->
  let gb := mGitBase l in
  let refLines :=
    QString.splitSkipEmpty LF (output (run env gb "git show-ref -d")) in
  let c := mRevCache l in
  let c' := mRevCache (after (loadReferences env l)) in
  references c' = references c ++ flat_map referencesOfLine refLines
  /\ distances c' = distances c ++ flat_map (distancesOfLine env gb) refLines
  /\ commits c' = commits c
  /\ wipCommit c' = wipCommit c
  /\ untrackedFiles c' = untrackedFiles c
  /\ reserved c' = reserved c
  /\ mLocked (after (loadReferences env l)) = mLocked l
  /\ mGitBase (after (loadReferences env l)) = gb.
Proof.
  intros H gb refLines c c'. subst c'.
  rewrite loadReferences_effect.
  unfold loadedReferences, loadedDistances. rewrite H.
  cbn. repeat split.
Qed.

Lemma loadReferences_appends_in_line_order_witness :
  let c' := mRevCache (after (loadReferences repoEnv idleLoader)) in
  references c'
  = [(sha1, LocalBranch, "main"%string);
     (sha1, RemoteBranches, "origin/main"%string);
     (sha2, Tag, "v1"%string)]
  /\ map fst (distances c') = ["main"%string].
Proof.
  destruct (loadReferences_appends_in_line_order repoEnv idleLoader eq_refl)
    as (R & D & _).
  split.
  - rewrite R. vm_compute. reflexivity.
  - rewrite D. vm_compute. reflexivity.
Defined.

(** X12. A distance output that holds one number and no tab gives that
    number both as the behind and as the ahead count of the pair; an empty
    output gives 0 and 0. *)
Theorem distance_output_without_tab {CommitInfo : Type}
    (env : Collaborators CommitInfo) (gb : GitBase) (name : string)
    (n : N) (nl : string) :
  (n <= QString.UINT_MAX)%N ->
  nl = ""%string \/ nl = String LF "" ->
  let d := branchDistances env gb name in
  (output (getDistanceBetweenBranches env gb true name)
   = (QString.number n ++ nl)%string ->
   behindMaster d = n /\ aheadMaster d = n)
  /\ (output (getDistanceBetweenBranches env gb false name)
      = (QString.number n ++ nl)%string ->
      behindOrigin d = n /\ aheadOrigin d = n)
  /\ (output (getDistanceBetweenBranches env gb true name) = ""%string ->
      behindMaster d = 0%N /\ aheadMaster d = 0%N)
  /\ (output (getDistanceBetweenBranches env gb false name) = ""%string ->
      behindOrigin d = 0%N /\ aheadOrigin d = 0%N).
Proof.
  intros Hn Hnl d. subst d. unfold branchDistances.
  cbn [behindMaster aheadMaster behindOrigin aheadOrigin].
  split; [|split; [|split]]; intros E; rewrite E.
  - now rewrite (parseDistance_single n nl _ Hn Hnl).
  - now rewrite (parseDistance_single n nl _ Hn Hnl).
  - split; reflexivity.
  - split; reflexivity.
Qed.

Lemma distance_output_without_tab_witness :
  let d := branchDistances oneNumberEnv (mkGitBase "/repo" "main") "main" in
  behindMaster d = 7%N /\ aheadMaster d = 7%N.
Proof.
  intros d.
  assert (B : (7 <= QString.UINT_MAX)%N) by (vm_compute; discriminate).
  destruct (distance_output_without_tab oneNumberEnv
              (mkGitBase "/repo" "main") "main" 7%N (String LF "") B
              (or_intror eq_refl)) as (M & _).
  exact (M eq_refl).
Defined.

(** ** The cache after the callback and after a cycle *)

Section CacheFacts.

Context {CommitInfo : Type}.
Variable env : Collaborators CommitInfo.

(** [processRevision], as an effect on the cache. *)
Lemma processRevision_effect (ba : string) (l : Loader CommitInfo) :
  let gb := mGitBase l in
  let c := mRevCache l in
  mRevCache (after (processRevision env ba l))
  = mkCache (Z.of_nat (List.length (QString.split NUL ba)))
            (untrackedOf env gb)
            (match pendingOf env gb with
             | Some w => Some w
             | None => wipCommit c
             end)
            (commits c ++ ingested env ba)
            (references c ++ loadedReferences env gb)
            (distances c ++ loadedDistances env gb).
Proof.
  intros gb c. unfold processRevision.
  rewrite !bind_run. cbn [after value fst snd emit].
  set (total := Z.of_nat (List.length (QString.split NUL ba))).
  set (l1 := after (cache (Configure total) l)).
  pose proof (updateWipRevision_run env l1) as W. cbv zeta in W.
  set (l2 := after (updateWipRevision env l1)) in *.
  destruct (ingest_run env (QString.split NUL ba) 1%Z l2)
    as (L3 & S3 & G3 & C3 & _).
  set (l3 := after (ingest env (QString.split NUL ba) 1 l2)) in *.
  rewrite loadReferences_effect.
  cbn [setLocked after fst snd mRevCache mGitBase mLocked mShowAll].
  rewrite C3, G3, W. subst l1.
  cbn [cache after fst snd mRevCache mGitBase mLocked mShowAll applyCall
       reserved untrackedFiles wipCommit commits references distances].
  unfold withReferences, ingested.
  cbn [reserved untrackedFiles wipCommit commits references distances].
  reflexivity.
Qed.

Lemma validPrefix_all (tokens : list string) :
  List.length (validPrefix env tokens) = List.length tokens
  <-> Forall (fun t => isValid env (parseCommit env t) = true) tokens.
Proof.
  split.
  - induction tokens as [|t tokens IH]; simpl; [constructor|].
    destruct (isValid env (parseCommit env t)) eqn:V; simpl.
    + intros E. constructor; [exact V | apply IH; lia].
    + discriminate.
  - induction 1 as [|t tokens V _ IH]; simpl; [reflexivity|].
    rewrite V. simpl. now rewrite IH.
Qed.

End CacheFacts.

Lemma lines_cons (p : string) (rest : list string) :
  lines (p :: rest) = (p ++ String LF (lines rest))%string.
Proof.
  unfold lines. destruct rest as [|q rest].
  - reflexivity.
  - cbn [map String.concat]. now rewrite app_assoc_s.
Qed.

(** Printing paths one per line and splitting the text gives the paths. *)
Lemma splitSkipEmpty_lines (paths : list string) :
  Forall (fun p => p <> ""%string
                   /\ allChars (fun c => negb (Ascii.eqb c LF)) p = true)
         paths ->
  QString.splitSkipEmpty LF (lines paths) = paths.
Proof.
  induction 1 as [|p paths [Hne Hlf] _ IH]; [reflexivity|].
  rewrite lines_cons. unfold QString.splitSkipEmpty in *.
  rewrite (split_app_separator LF p (lines paths) Hlf).
  cbn [filter]. rewrite IH.
  destruct p; [now elim Hne | reflexivity].
Qed.

(** X13. The callback does not clear the cache: it sets the reserved size to
    the number of tokens, replaces the list of untracked files, replaces the
    pending-changes record when HEAD resolves, and appends the records of the
    buffer, the references and the distances to those the cache held. *)
Theorem processRevision_extends_cache {CommitInfo : Type}
    (env : Collaborators CommitInfo) (ba : string) (l : Loader CommitInfo) :
  let gb := mGitBase l in
  let c := mRevCache l in
  mRevCache (after (processRevision env ba l))
  = mkCache (Z.of_nat (List.length (QString.split NUL ba)))
            (untrackedOf env gb)
            (match pendingOf env gb with
             | Some w => Some w
             | None => wipCommit c
             end)
            (commits c ++ ingested env ba)
            (references c ++ loadedReferences env gb)
            (distances c ++ loadedDistances env gb).
Proof. exact (processRevision_effect env ba l). Qed.

(** X14. After a full load cycle nothing of the earlier cache is left: the
    cache holds the records of the log output requested in the resolved
    root, and the untracked files, the pending changes, the references and
    the distances as the commands run in that root give them. *)
Theorem loadCycle_rebuilds_cache {CommitInfo : Type}
    (env : Collaborators CommitInfo) (l : Loader CommitInfo) :
  value (loadCycle env l) = true ->
  let gb := resolvedGitBase env (mGitBase l) in
  let ba :=
    logOutput env (workingDir gb)
      (baseCmd (mkLoader true (mShowAll l) gb (@emptyCache CommitInfo))) in
  mRevCache (after (loadCycle env l))
  = mkCache (Z.of_nat (List.length (QString.split NUL ba)))
            (untrackedOf env gb) (pendingOf env gb) (ingested env ba)
            (loadedReferences env gb) (loadedDistances env gb).
Proof.
  intros C gb ba.
  destruct (loadCycle_full env l C) as [T F]. rewrite F.
  destruct (loadRepository_true_inv env l T) as (HL & HW & HR).
  pose proof (loadRepository_run env l HL HW HR) as E. cbv zeta in E.
  rewrite E. cbn [after fst snd mGitBase]. fold gb. fold ba.
  rewrite processRevision_effect.
  cbn [mGitBase mRevCache emptyCache wipCommit commits references distances app].
  now destruct (pendingOf env gb).
Qed.

Lemma loadCycle_rebuilds_cache_witness :
  mRevCache (after (loadCycle repoEnv idleLoader))
  = mkCache 2 ["foo.txt"%string] (Some (sha1, ""%string, ""%string))
      [(1%Z, sha1); (2%Z, sha2)]
      [(sha1, LocalBranch, "main"%string);
       (sha1, RemoteBranches, "origin/main"%string);
       (sha2, Tag, "v1"%string)]
      [("main"%string, mkDistances 5 2 0 0)].
Proof.
  assert (C : value (loadCycle repoEnv idleLoader) = true)
    by (vm_compute; reflexivity).
  rewrite (loadCycle_rebuilds_cache repoEnv idleLoader C).
  vm_compute. reflexivity.
Defined.

(** X15. For an empty buffer the callback announces one token; when the
    empty token does not decode, no record is inserted, no step is emitted
    and the commit records of the cache are as before. *)
Theorem processRevision_empty_buffer {CommitInfo : Type}
    (env : Collaborators CommitInfo) (l : Loader CommitInfo) :
  isValid env (parseCommit env "") = false ->
  let r := processRevision env "" l in
  announced (actions r) = [1%Z]
  /\ inserted (actions r) = []
  /\ steps (actions r) = []
  /\ commits (mRevCache (after r)) = commits (mRevCache l).
Proof.
  intros V r.
  destruct (processRevision_run env "" l) as (wip & refs & A & W & R & C & _).
  fold r in A, C.
  destruct (quiet_segment isWipAction wip wip_quiet W) as (Iw & Sw & Aw).
  destruct (quiet_segment isReferenceAction refs reference_quiet R)
    as (Ir & Sr & Ar).
  assert (E : ingested env "" = []).
  { unfold ingested. cbn [QString.split validPrefix]. now rewrite V. }
  rewrite E in A, C. cbn [flat_map app] in A.
  rewrite A, C, app_nil_r.
  rewrite !announced_app, !inserted_app, !steps_app, Iw, Ir, Sw, Sr, Aw, Ar.
  repeat split.
Qed.

Lemma processRevision_empty_buffer_witness :
  let r := processRevision repoEnv "" idleLoader in
  announced (actions r) = [1%Z]
  /\ inserted (actions r) = []
  /\ steps (actions r) = []
  /\ commits (mRevCache (after r)) = commits (mRevCache idleLoader).
Proof.
  apply (processRevision_empty_buffer repoEnv idleLoader). reflexivity.
Defined.

(** X16. The number of records inserted, and of steps emitted, reaches the
    announced total exactly when every token of the buffer decodes. *)
Theorem progress_reaches_total_iff_all_decode {CommitInfo : Type}
    (env : Collaborators CommitInfo) (ba : string) (l : Loader CommitInfo) :
  let r := processRevision env ba l in
  let tokens := QString.split NUL ba in
  (announced (actions r) = [Z.of_nat (List.length (inserted (actions r)))]
   <-> Forall (fun t => isValid env (parseCommit env t) = true) tokens)
  /\ List.length (steps (actions r)) = List.length (inserted (actions r)).
Proof.
  intros r tokens.
  destruct (processRevision_run env ba l) as (wip & refs & A & W & R & _).
  fold r in A. fold tokens in A.
  destruct (quiet_segment isWipAction wip wip_quiet W) as (Iw & Sw & Aw).
  destruct (quiet_segment isReferenceAction refs reference_quiet R)
    as (Ir & Sr & Ar).
  destruct (ingestActions_observed (ingested env ba)) as (Ii & Si & Ai).
  assert (I : inserted (actions r) = ingested env ba).
  { rewrite A, !inserted_app, Iw, Ir, Ii. cbn. now rewrite app_nil_r. }
  assert (S : steps (actions r) = map fst (ingested env ba)).
  { rewrite A, !steps_app, Sw, Sr, Si. cbn. now rewrite app_nil_r. }
  assert (An : announced (actions r) = [Z.of_nat (List.length tokens)]).
  { rewrite A, !announced_app, Aw, Ar, Ai. reflexivity. }
  assert (N : List.length (ingested env ba)
              = List.length (validPrefix env tokens)).
  { unfold ingested. fold tokens. now rewrite numbered_length, length_map. }
  rewrite An, S, I, length_map, N. split; [|reflexivity].
  rewrite <- validPrefix_all. split.
  - intros E. injection E as E. lia.
  - intros E. now rewrite E.
Qed.

(** X17. When the command prints non-empty paths, one per line, each ended
    by a line feed, [getUntrackedFiles] returns exactly these paths, in that
    order and as often as they are printed. *)
Theorem getUntrackedFiles_reads_back_paths {CommitInfo : Type}
    (env : Collaborators CommitInfo) (l : Loader CommitInfo)
    (paths : list string) :
  Forall (fun p => p <> ""%string
                   /\ allChars (fun c => negb (Ascii.eqb c LF)) p = true)
         paths ->
  output (run env (mGitBase l)
            (untrackedCmd
               (fileExists env
                  (workingDir (mGitBase l) ++ "/" ++ ".git/info/exclude")%string)))
  = lines paths ->
  value (getUntrackedFiles env l) = paths.
Proof.
  intros P E.
  change (value (getUntrackedFiles env l))
    with (QString.splitSkipEmpty LF
            (output (run env (mGitBase l)
               (untrackedCmd
                  (fileExists env
                     (workingDir (mGitBase l) ++ "/" ++ ".git/info/exclude")%string))))).
  rewrite E. now apply splitSkipEmpty_lines.
Qed.

Lemma getUntrackedFiles_reads_back_paths_witness :
  value (getUntrackedFiles duplicatesEnv idleLoader)
  = ["a.txt"; "a.txt"]%string.
Proof.
  apply (getUntrackedFiles_reads_back_paths duplicatesEnv idleLoader).
  - repeat constructor; discriminate.
  - reflexivity.
Defined.

(** ** The order of the actions of the callback *)

Section OrderFacts.

Context {CommitInfo : Type}.
Variable env : Collaborators CommitInfo.

Lemma updateWipRevision_actions (l : Loader CommitInfo) :
  actions (updateWipRevision env l) = wipActions env (mGitBase l).
Proof.
  unfold updateWipRevision, getUntrackedFiles, wipActions, untrackedOf.
  rewrite !bind_run.
  cbn [value after actions fst snd gitBase runGit ret cache mGitBase app].
  destruct (success (run env (mGitBase l) "git rev-parse --revs-only HEAD")).
  - rewrite !bind_run.
    cbn [value after actions fst snd runGit cache mGitBase app].
    reflexivity.
  - reflexivity.
Qed.

Lemma loadReference_actions (reference : string) (l : Loader CommitInfo) :
  actions (loadReference env reference l)
  = referenceActionsOfLine env (mGitBase l) reference.
Proof.
  unfold loadReference, referenceActionsOfLine, referenceOfLine.
  destruct (negb (QString.startsWith "refs/tags/" (QString.mid 41 reference))
            || (QString.startsWith "refs/tags/" (QString.mid 41 reference)
                && QString.endsWith "^{}" (QString.mid 41 reference)));
    [|reflexivity].
  destruct (classify reference (QString.mid 41 reference))
    as [[[type name] [|]]|]; [| |reflexivity].
  - unfold branchDistances, bind, cache, distanceBetweenBranches, ret.
    cbn -[parseDistance applyCall].
    destruct (parseDistance
                (output (getDistanceBetweenBranches env (mGitBase l) true name)) _)
      as [bm am].
    simpl (mGitBase _).
    destruct (parseDistance
                (output (getDistanceBetweenBranches env (mGitBase l) false name)) _)
      as [bo ao].
    reflexivity.
  - rewrite bind_run. reflexivity.
Qed.

Lemma forEach_loadReference_actions (refLines : list string)
    (l : Loader CommitInfo) :
  actions (forEach (loadReference env) refLines l)
  = flat_map (referenceActionsOfLine env (mGitBase l)) refLines.
Proof.
  revert l. induction refLines as [|x refLines IH]; intros l; [reflexivity|].
  cbn [forEach flat_map]. rewrite bind_run. cbn [actions snd].
  rewrite IH, loadReference_actions, loadReference_effect.
  reflexivity.
Qed.

Lemma loadReferences_actions (l : Loader CommitInfo) :
  actions (loadReferences env l) = referenceActions env (mGitBase l).
Proof.
  unfold loadReferences, referenceActions.
  rewrite bind_run. cbn [value after actions fst snd runGit app].
  destruct (success (run env (mGitBase l) "git show-ref -d")).
  - rewrite bind_run. cbn [value after actions fst snd lastCommit app].
    now rewrite forEach_loadReference_actions.
  - reflexivity.
Qed.

(** The whole list of the actions of [processRevision]. *)
Lemma processRevision_actions (ba : string) (l : Loader CommitInfo) :
  let total := Z.of_nat (List.length (QString.split NUL ba)) in
  actions (processRevision env ba l)
  = [EvCache (Configure total); EvLoadingStarted total]
    ++ wipActions env (mGitBase l)
    ++ flat_map ingestActions (ingested env ba)
    ++ [EvSetLocked false]
    ++ referenceActions env (mGitBase l)
    ++ [EvLoadingFinished].
Proof.
  intros total. unfold processRevision. fold total.
  rewrite !bind_run. cbn [after actions value fst snd emit cache].
  set (l1 := mkLoader (mLocked l) (mShowAll l) (mGitBase l)
                      (applyCall (Configure total) (mRevCache l))).
  pose proof (updateWipRevision_run env l1) as W. cbv zeta in W.
  set (l2 := after (updateWipRevision env l1)) in *.
  destruct (ingest_run env (QString.split NUL ba) 1%Z l2)
    as (_ & _ & G3 & _ & A3).
  set (l3 := after (ingest env (QString.split NUL ba) 1 l2)) in *.
  rewrite updateWipRevision_actions, A3, loadReferences_actions.
  cbn [setLocked after actions fst snd mGitBase].
  rewrite G3, W. subst l1. cbn [mGitBase].
  unfold ingested. reflexivity.
Qed.

End OrderFacts.

(** C6. The actions of one callback are, in this order and with nothing in
    between: the sizing of the cache and the loading-started event, both with
    the number of tokens; the synthesis of the pending-changes record (the
    untracked files listed and stored, the HEAD lookup and, when HEAD
    resolves, the two diffs and the hand-over of the record to the cache);
    for each token before the first that does not decode, in the order of
    the buffer, the insertion of its record followed by its step event; the
    release of the lock; the population of the references (the listing and,
    when it succeeds, the last-commit lookup and, line by line, the
    insertion of the reference and, for a local branch, the two distance
    queries and the insertion of the distances); the loading-finished event.
    The cache afterwards holds what these actions handed to it, and the lock
    is free. *)
Theorem processRevision_order {CommitInfo : Type}
    (env : Collaborators CommitInfo) (ba : string) (l : Loader CommitInfo) :
  let gb := mGitBase l in
  let wd := workingDir gb in
  let total := Z.of_nat (List.length (QString.split NUL ba)) in
  let listing := run env gb "git show-ref -d" in
  let r := processRevision env ba l in
  actions r
  = [EvCache (Configure total); EvLoadingStarted total]
    ++ wipActions env gb
    ++ flat_map ingestActions (ingested env ba)
    ++ [EvSetLocked false]
    ++ referenceActions env gb
    ++ [EvLoadingFinished]
  /\ wipActions env gb
     = [EvRun wd (untrackedCmd
                    (fileExists env (wd ++ "/" ++ ".git/info/exclude")%string));
        EvCache (SetUntrackedFilesList (untrackedOf env gb));
        EvRun wd "git rev-parse --revs-only HEAD"]
       ++ match pendingOf env gb with
          | Some (parentSha, diffIndex, diffIndexCached) =>
              [EvRun wd ("git diff-index " ++ parentSha)%string;
               EvRun wd ("git diff-index --cached " ++ parentSha)%string;
               EvCache (UpdateWipCommit parentSha diffIndex diffIndexCached)]
          | None => []
          end
  /\ referenceActions env gb
     = EvRun wd "git show-ref -d"
       :: (if success listing
           then EvLastCommit
                :: flat_map (referenceActionsOfLine env gb)
                     (QString.splitSkipEmpty LF (output listing))
           else [])
  /\ Forall (fun e => isWipAction e = true) (wipActions env gb)
  /\ Forall (fun e => isReferenceAction e = true) (referenceActions env gb)
  /\ map snd (ingested env ba)
     = map (parseCommit env) (validPrefix env (QString.split NUL ba))
  /\ mLocked (after r) = false
  /\ mRevCache (after r)
     = mkCache total
               (untrackedOf env gb)
               (match pendingOf env gb with
                | Some w => Some w
                | None => wipCommit (mRevCache l)
                end)
               (commits (mRevCache l) ++ ingested env ba)
               (references (mRevCache l) ++ loadedReferences env gb)
               (distances (mRevCache l) ++ loadedDistances env gb).
Proof.
  cbv zeta.
  split; [exact (processRevision_actions env ba l)|].
  split.
  { unfold wipActions, pendingOf.
    destruct (success (run env (mGitBase l) "git rev-parse --revs-only HEAD"));
      reflexivity. }
  split; [reflexivity|].
  split.
  { rewrite <- (updateWipRevision_actions env l).
    apply (updateWipRevision_keeps env l). }
  split.
  { rewrite <- (loadReferences_actions env l).
    apply (loadReferences_keeps env l). }
  split; [unfold ingested; apply numbered_values|].
  split.
  { destruct (processRevision_run env ba l)
      as (_ & _ & _ & _ & _ & _ & L & _).
    exact L. }
  exact (processRevision_effect env ba l).
Qed.

Lemma processRevision_order_witness :
  actions (processRevision repoEnv (sha1 ++ String NUL sha2)
             (mkLoader true false (mkGitBase "/repo" "main") emptyCache))
  = [EvCache (Configure 2); EvLoadingStarted 2;
     EvRun "/repo" "git ls-files --others --exclude-per-directory=$.gitignore$";
     EvCache (SetUntrackedFilesList ["foo.txt"%string]);
     EvRun "/repo" "git rev-parse --revs-only HEAD";
     EvRun "/repo" ("git diff-index " ++ sha1)%string;
     EvRun "/repo" ("git diff-index --cached " ++ sha1)%string;
     EvCache (UpdateWipCommit sha1 "" "");
     EvCache (InsertCommitInfo sha1 1); EvLoadingStep 1;
     EvCache (InsertCommitInfo sha2 2); EvLoadingStep 2;
     EvSetLocked false;
     EvRun "/repo" "git show-ref -d"; EvLastCommit;
     EvCache (InsertReference sha1 LocalBranch "main");
     EvDistance true "main"; EvDistance false "main";
     EvCache (InsertLocalBranchDistances "main" (mkDistances 5 2 0 0));
     EvCache (InsertReference sha1 RemoteBranches "origin/main");
     EvCache (InsertReference sha2 Tag "v1");
     EvLoadingFinished].
Proof.
  destruct (processRevision_order repoEnv (sha1 ++ String NUL sha2)
              (mkLoader true false (mkGitBase "/repo" "main") emptyCache))
    as (A & _).
  rewrite A. vm_compute. reflexivity.
Defined.
